(** * Release validation driver (RelVal/o2dpg_release_validation.py)

    A shallow embedding of the Python driver that wraps the ROOT macro
    ReleaseValidation.C, and the properties of it that the specification
    states.

    Conventions of the embedding:
    - Python [str] is [string]; [len] is the number of characters, with
      one character per byte (ASCII paths); [list.sort()] on strings is
      the sort by code point, [merge_sort (≤)%string].
    - Python [set] is [gset string]; [list(set(a) & set(b))] lists the
      elements in an order that Python does not fix, here [elements].
    - Python [dict] read with [.get] is [gmap]; a [dict] whose insertion
      order is observable (it is dumped to JSON) is an association list.
    - A Python [float] is the rational number that the double stands for,
      in [Q], and a comparison of floats is the comparison in [Q].
      [int / int] is Python's true division: the quotient rounded to the
      nearest double, ties to even; it raises [ZeroDivisionError] on a
      zero divisor and [OverflowError] when the rounded quotient is out
      of the range of a double.
    - [os.stat(path).st_size] is a C [off_t]: between 0 and 2^63 - 1.
    - Everything outside the interpreter (file system, ROOT, the child
      process, JSON files on disk) is an oracle of the record [Env]; the
      effects of a run are the trace of [event]s it leaves. *)

From Stdlib Require Import ZArith QArith Qabs Lia Ascii.
From Stdlib Require SpecFloat.
From stdpp Require Import base list strings gmap sorting pretty.

Local Open Scope Z_scope.

(** ** Exceptions and results *)

Inductive exn : Type :=
| ZeroDivisionError
| OverflowError
| TypeError
| AttributeError
| FileNotFoundError.

Inductive result (A : Type) : Type :=
| Ok (a : A)
| Raise (e : exn).
Arguments Ok {A} a.
Arguments Raise {A} e.

Definition bindR {A B} (r : result A) (k : A -> result B) : result B :=
  match r with
  | Ok a => k a
  | Raise e => Raise e
  end.

(** [for x in l: acc = body acc x], stopping at the first exception. *)
Fixpoint forR {A S} (body : S -> A -> result S) (l : list A) (acc : S)
  : result S :=
  match l with
  | [] => Ok acc
  | x :: l' => bindR (body acc x) (forR body l')
  end.

(** ** Strings and paths *)

Module Str.

(** [s[n:]] *)
Fixpoint drop (n : nat) (s : string) : string :=
  match n, s with
  | O, _ => s
  | S n', String _ s' => drop n' s'
  | S _, EmptyString => EmptyString
  end.

(** [s.lstrip(c)] for a single character [c] *)
Fixpoint lstrip (c : Ascii.ascii) (s : string) : string :=
  match s with
  | String a s' => if Ascii.eqb a c then lstrip c s' else s
  | EmptyString => EmptyString
  end.

(** [g in s]: [g] occurs in [s] as a substring *)
Fixpoint contains (g s : string) : bool :=
  String.prefix g s ||
  match s with
  | String _ s' => contains g s'
  | EmptyString => false
  end.

(** [s.startswith(c)], [s.endswith(c)] for a single character *)
Definition startswith (c : Ascii.ascii) (s : string) : bool :=
  match s with
  | String a _ => Ascii.eqb a c
  | EmptyString => false
  end.

Fixpoint endswith (c : Ascii.ascii) (s : string) : bool :=
  match s with
  | EmptyString => false
  | String a EmptyString => Ascii.eqb a c
  | String _ s' => endswith c s'
  end.

(** [s.replace(a, b)] for single characters *)
Fixpoint replace (a b : Ascii.ascii) (s : string) : string :=
  match s with
  | EmptyString => EmptyString
  | String c s' => String (if Ascii.eqb c a then b else c) (replace a b s')
  end.

(** iterating over a [str] yields its characters, each a [str] *)
Fixpoint chars (s : string) : list string :=
  match s with
  | EmptyString => []
  | String c s' => String c EmptyString :: chars s'
  end.

Definition dquote : string := String (Ascii.ascii_of_nat 34) EmptyString.

End Str.

(** [os.path.join(a, b)] of posixpath *)
Definition join (a b : string) : string :=
  if Str.startswith "/"%char b then b
  else if bool_decide (a = "") || Str.endswith "/"%char a then a +:+ b
  else a +:+ "/" +:+ b.

(** ** PathSetMatcher: [find_mutual_files] *)

Section PathSetMatcher.

(** [glob(path, recursive=True)] on the file system at the time of the
    call *)
Variable glob : string -> list string.

(** [f.sort()], then [f[i] = f[i][len(d):].lstrip("/")] for every [i] *)
Definition relative_names (f : list string) (d : string) : list string :=
  (fun p => Str.lstrip "/"%char (Str.drop (String.length d) p))
    <$> merge_sort (≤)%string f.

(** [list(set(a) & set(b))] *)
Definition set_and (a b : list string) : list string :=
  elements ((list_to_set a : gset string) ∩ list_to_set b).

(** the [grep] loop: for every pattern, every cached entry containing it *)
Definition grep_filter (grep cache : list string) : list string :=
  g ← grep; filter (fun ic => Str.contains g ic = true) cache.

(** [if grep:] is false for [None] and for an empty sequence *)
Definition truthy {A} (o : option (list A)) : bool :=
  match o with
  | Some (_ :: _) => true
  | _ => false
  end.

Definition find_mutual_files (dirs : list string) (glob_pattern : string)
    (grep : option (list string)) : list string :=
  let files := (fun d => glob (d +:+ "/**/" +:+ glob_pattern)) <$> dirs in
  let files := zip_with relative_names files dirs in
  match files with
  | [] => []
  | f0 :: rest =>
      let intersection := foldl set_and f0 rest in
      let intersection :=
        if truthy grep then grep_filter (default [] grep) intersection
        else intersection in
      merge_sort (≤)%string intersection
  end.

End PathSetMatcher.

(** ** SizeAuditor: [exceeding_difference_thresh] *)

(** [itertools.combinations(range(n), 2)] *)
Definition combinations2 (n : nat) : list (nat * nat) :=
  i1 ← seq 0 n; (fun i2 => (i1, i2)) <$> seq (S i1) (n - S i1).

(** The exponent [k] with [2^k <= n/d < 2^(k+1)], for positive [n] and
    [d]. *)
Definition binade (n d : Z) : Z :=
  let k := Z.log2 n - Z.log2 d in
  if d * 2 ^ Z.max 0 k <=? n * 2 ^ Z.max 0 (- k) then k else k - 1.

(** [n/d] rounded to the nearest integer, ties to the even one. *)
Definition half_even (n d : Z) : Z :=
  let m := n / d in
  let r := n mod d in
  if 2 * r <? d then m
  else if d <? 2 * r then m + 1
  else if Z.even m then m else m + 1.

(** The binary64 number nearest to [n/d], ties to even, for positive [n]
    and [d]: a multiple [m * 2^e] of the unit in the last place, with
    [e = k - 52] in the binade [k] of the quotient and [e = -1074] below
    the normal range.  The range of the exponent is not bounded from
    above here: [overflows] tells whether the value is a double. *)
Definition nearest_double (n d : Z) : Q :=
  let e := Z.max (binade n d - 52) (-1074) in
  let m := half_even (n * 2 ^ Z.max 0 (- e)) (d * 2 ^ Z.max 0 e) in
  Qmake (m * 2 ^ Z.max 0 e) (Z.to_pos (2 ^ Z.max 0 (- e))).

(** The quotient [a/b] rounded to double precision, for [b] not zero. *)
Definition double_quotient (a b : Z) : Q :=
  if decide (a = 0) then 0%Q
  else
    let q := nearest_double (Z.abs a) (Z.abs b) in
    if decide (Z.sgn a = Z.sgn b) then q else Qopp q.

(** beyond the largest double, [(2^53 - 1) * 2^971] *)
Definition overflows (q : Q) : bool :=
  Qle_bool (inject_Z (2 ^ 1024)) (Qabs q).

(** [a / b] on integers *)
Definition true_div (a b : Z) : result Q :=
  if decide (b = 0) then Raise ZeroDivisionError
  else if overflows (double_quotient a b) then Raise OverflowError
  else Ok (double_quotient a b).

(** [q > t] *)
Definition Qgtb (q t : Q) : bool := negb (Qle_bool q t).

(** The test of one pair, [diff / sizes[i2] > threshold or
    diff / sizes[i2] > threshold]; the second disjunct is evaluated only
    when the first is false. *)
Definition pair_exceeds (sizes : list Z) (threshold : Q) (p : nat * nat)
  : result bool :=
  let '(i1, i2) := p in
  let diff := Z.abs (sizes !!! i1 - sizes !!! i2) in
  bindR (true_div diff (sizes !!! i2)) (fun q1 =>
  if Qgtb q1 threshold then Ok true
  else bindR (true_div diff (sizes !!! i2)) (fun q2 =>
       Ok (Qgtb q2 threshold))).

Definition exceeding_difference_thresh (sizes : list Z) (threshold : Q)
  : result (list (nat * nat)) :=
  forR (fun diff_indices p =>
          bindR (pair_exceeds sizes threshold p) (fun b =>
          Ok (if b then diff_indices ++ [p] else diff_indices)))
       (combinations2 (length sizes)) [].

(** ** The world outside the interpreter *)

(** A [TChain]: the tree name it was made for and the paths given to
    [Add], in order. *)
Record chain : Type := TChain { treename_of : string; added : list string }.

(** A histogram object: its name, and the chain whose values fill it
    ([None]: empty, as after [Reset] and a failed [Draw]). *)
Record hist : Type := TH1 { GetName : string; h_from : option chain }.

(** What [json.dump] writes. *)
Inductive json_doc : Type :=
| JFileSizes (directories : list string) (files : list (string * list Z))
             (threshold : Q)
| JSummary (summary : list (string * list string)).

(** The observable effects of a run, oldest first. *)
Inductive event : Type :=
| EPrint (text : string)
| EMakedirs (path : string)
| EPopen (cmd : string) (cwd : string) (status : Z)
| EJsonDump (path : string) (doc : json_doc)
| EHistWrite (file : string) (h : hist).

Definition World : Type := list event.

(** The values of the C type [off_t] that are sizes of files. *)
Definition is_off_t (z : Z) : bool := (0 <=? z) && (z <? 2 ^ 63).

(** The answers of the environment.  Queries of the file system see the
    effects so far; the contents of the input trees do not depend on
    them. *)
Record Env : Type := {
  O2DPG_ROOT : string;
  isfile : World -> string -> bool;
  isdir : World -> string -> bool;
  path_exists : World -> string -> bool;
  (** [glob(pattern, recursive=r)] *)
  glob : World -> string -> bool -> list string;
  abspath : string -> string;
  st_size : World -> string -> Z;
  st_size_range : forall w path, is_off_t (st_size w path) = true;
  (** exit status of [Popen(split(cmd), cwd=cwd)] at [p.wait()] *)
  child_status : World -> string -> string -> Z;
  (** [json.load(f)["test_summary"]] of a verdict file *)
  test_summary : World -> string -> gmap string (list string);
  (** [TFile.Open(path, option)] gives a usable file *)
  tfile_open : World -> string -> string -> bool;
  (** [(l.GetName(), l.GetTypeName())] for [l] in [GetListOfLeaves()] *)
  leaves : chain -> list (string * string);
  (** return value of [chain.Draw(varexp)] *)
  Draw : chain -> string -> Z;
  (** [str(x)] of a float *)
  str_float : Q -> string;
}.

(** ** Computations with effects and exceptions *)

Definition M (A : Type) : Type := World -> result A * World.

Definition ret {A} (a : A) : M A := fun w => (Ok a, w).

Definition raise {A} (e : exn) : M A := fun w => (Raise e, w).

Definition bindM {A B} (m : M A) (k : A -> M B) : M B :=
  fun w =>
    match m w with
    | (Ok a, w') => k a w'
    | (Raise e, w') => (Raise e, w')
    end.

Notation "'let*' x ':=' m 'in' k" := (bindM m (fun x => k))
  (at level 10, x pattern, m at level 100, k at level 200).
Notation "m ;; k" := (bindM m (fun _ => k))
  (at level 100, k at level 200, right associativity).

Definition emit (e : event) : M unit := fun w => (Ok tt, w ++ [e]).

(** a query of the environment at the current state of the world *)
Definition ask {A} (q : World -> A) : M A := fun w => (Ok (q w), w).

Definition liftR {A} (r : result A) : M A := fun w => (r, w).

Definition print (text : string) : M unit := emit (EPrint text).

Definition makedirs (path : string) : M unit := emit (EMakedirs path).

(** [for x in l: acc = body acc x] *)
Fixpoint forM {A S} (body : S -> A -> M S) (l : list A) (acc : S) : M S :=
  match l with
  | [] => ret acc
  | x :: l' => let* acc' := body acc x in forM body l' acc'
  end.

(** [d[key] = value] on a [dict] kept in insertion order *)
Fixpoint dict_set {V} (key : string) (value : V) (d : list (string * V))
  : list (string * V) :=
  match d with
  | [] => [(key, value)]
  | (k, v) :: d' =>
      if bool_decide (k = key) then (k, value) :: d'
      else (k, v) :: dict_set key value d'
  end.

Definition nl : string := String (Ascii.ascii_of_nat 10) EmptyString.

Definition DETECTORS_OF_INTEREST_HITS : list string :=
  ["ITS"; "TOF"; "EMC"; "TRD"; "PHS"; "FT0"; "HMP"; "MFT"; "FDD"; "FV0";
   "MCH"; "MID"; "CPV"; "ZDC"; "TPC"].

(** The namespace that [argparse] builds for [rel-val]. *)
Record Args : Type := {
  input : string * string;
  output : string;
  test : Z;
  chi2_value : Q;
  rel_mean_diff : Q;
  rel_entries_diff : Q;
  select_critical : bool;
  threshold : Q;
  with_hits : bool;
  detectors : list string;
  with_tpctracks : bool;
  with_kine : bool;
  with_analysis : bool;
  with_qc : bool;
  no_plots : bool;
}.

Section Driver.

Variable env : Env.

Definition ROOT_MACRO : string :=
  join (join (O2DPG_ROOT env) "RelVal") "ReleaseValidation.C".

Definition is_sim_dir (w : World) (path : string) : bool :=
  if negb (isdir env w path) then false
  else if bool_decide (glob env w (path +:+ "/pipeline*") false = [])
       then false
  else true.

(** *** SizeAuditor: [file_sizes] *)

(** [f"{s:<{n}}"] *)
Definition ljust (s : string) (n : nat) : string :=
  s +:+ String.concat "" (replicate (n - String.length s) " ").

(** [str] of a list of pairs of indices *)
Definition str_pairs (l : list (nat * nat)) : string :=
  "[" +:+ String.concat ", "
    ((fun p : nat * nat =>
        "(" +:+ pretty p.1 +:+ ", " +:+ pretty p.2 +:+ ")") <$> l)
  +:+ "]".

Definition max_len (l : list string) : nat :=
  foldl (fun m s => Nat.max m (String.length s)) O l.

(** one row of the table; raises when the comparison of sizes does *)
Definition size_row (threshold : Q) (widths : list nat)
    (files : list (string * list Z)) (row : string * list Z)
  : M (list (string * list Z)) :=
  let '(f, compare_sizes) := row in
  let o := ljust f (widths !!! O) in
  let o := foldl (fun o js =>
                    o +:+ " | " +:+ ljust (pretty js.2) (widths !!! S js.1))
                 o (imap (fun j s => (j, s)) compare_sizes) in
  let o := "| " +:+ o +:+ " |" in
  let* diff_indices :=
    liftR (exceeding_difference_thresh compare_sizes threshold) in
  match diff_indices with
  | _ :: _ =>
      print (o +:+ "  <==  EXCEEDING threshold of "
               +:+ str_float env threshold +:+ " at columns "
               +:+ str_pairs diff_indices +:+ " |");;
      ret (dict_set f compare_sizes files)
  | [] => print (o +:+ " OK |");; ret files
  end.

Definition file_sizes (dirs : list string) (threshold : Q) : M json_doc :=
  let* intersection :=
    ask (fun w => find_mutual_files (fun p => glob env w p true)
                    dirs "*.root" None) in
  let* rows :=
    ask (fun w => (fun f => (f, (fun d => st_size env w (join d f)) <$> dirs))
                    <$> intersection) in
  let widths :=
    max_len (fst <$> rows)
    :: imap (fun i _ => max_len ((fun r : string * list Z =>
                                    pretty (r.2 !!! i)) <$> rows)) dirs in
  let top_row := "| " +:+ String.concat " | " dirs +:+ " |" in
  print (nl +:+ top_row +:+ nl);;
  let* files := forM (size_row threshold widths) rows [] in
  ret (JFileSizes dirs files threshold).

(** [if not exists(path): makedirs(path)] *)
Definition ensure_dir (path : string) : M unit :=
  let* ex := ask (fun w => path_exists env w path) in
  if negb ex then makedirs path else ret tt.

(** *** ColumnarReducer *)

Definition load_root_file (path opt : string) : M (option string) :=
  let* ok := ask (fun w => tfile_open env w path opt) in
  if negb ok then
    print ("WARNING: ROOT file " +:+ path
             +:+ " might not exist or could not be opened");;
    ret None
  else ret (Some path).

(** a method call on the result of [load_root_file] *)
Definition method (f : option string) : M string :=
  match f with
  | Some path => ret path
  | None => raise AttributeError
  end.

(** What is iterated in [for f in filenames]: a list of paths, or a
    single [str], which yields its characters. *)
Inductive filenames : Type :=
| PathList (l : list string)
| PathStr (s : string).

Definition iter (fs : filenames) : list string :=
  match fs with
  | PathList l => l
  | PathStr s => Str.chars s
  end.

Definition accepted_types : list string :=
  ["UInt_t"; "Int_t"; "Float_t"; "Double_t"; "Double32_t"].

(** names of the leaves of accepted type, sorted *)
Definition branch_names (c : chain) : list string :=
  merge_sort (≤)%string
    (fst <$> filter (fun l : string * string => l.2 ∈ accepted_types)
                    (leaves env c)).

Definition h_name_of (b : string) : string := Str.replace "." "_" b.

(** first loop: one histogram per branch from the first chain *)
Definition fill_first (chain1 : chain) (output_file1 : option string)
    (acc : list string * list hist) (b : string)
  : M (list string * list hist) :=
  let '(branch_names2, histograms) := acc in
  let h_name := h_name_of b in
  if bool_decide (Draw env chain1 (b +:+ ">>" +:+ h_name) = -1) then
    ret (branch_names2, histograms)
  else
    let hist := TH1 h_name (Some chain1) in
    let* file1 := method output_file1 in
    emit (EHistWrite file1 hist);;
    ret (branch_names2 ++ [b], histograms ++ [hist]).

(** second loop: the same histogram, reset and filled from the second
    chain; the return value of [Draw] is not looked at *)
Definition fill_second (chain2 : chain) (output_file2 : option string)
    (_ : unit) (bh : string * hist) : M unit :=
  let '(b, h) := bh in
  let h := TH1 (GetName h) None in
  let* file2 := method output_file2 in
  let h :=
    if bool_decide (Draw env chain2 (b +:+ ">>+" +:+ GetName h) = -1)
    then h else TH1 (GetName h) (Some chain2) in
  emit (EHistWrite file2 h).

Definition make_generic_histograms_from_chain
    (filenames1 filenames2 : filenames)
    (output_filepath1 output_filepath2 treename : string) : M unit :=
  let chain1 := TChain treename (iter filenames1) in
  let chain2 := TChain treename (iter filenames2) in
  let branch_names1 := branch_names chain1 in
  let branch_names2 := branch_names chain2 in
  let* branch_names1 :=
    if bool_decide (branch_names1 ≠ branch_names2) then
      print "WARNING: Found different branches in input files";;
      ret (set_and branch_names1 branch_names2)
    else ret branch_names1 in
  let* output_file1 := load_root_file output_filepath1 "RECREATE" in
  let* filled :=
    forM (fill_first chain1 output_file1) branch_names1 ([], []) in
  let '(branch_names2, histograms) := filled in
  let* output_file2 := load_root_file output_filepath2 "RECREATE" in
  forM (fill_second chain2 output_file2)
       (zip branch_names2 histograms) tt;;
  (* [output_file1.Close()], [output_file2.Close()] *)
  method output_file1;;
  method output_file2;;
  ret tt.

(** *** ComparisonRunner *)

Definition kbool (b : bool) : string := if b then "kTRUE" else "kFALSE".

Definition rel_val_files (file1 file2 : string) (args : Args)
    (output_dir : string) : M Z :=
  ensure_dir output_dir;;
  let select_critical := kbool (select_critical args) in
  let no_plots := kbool (no_plots args) in
  let q := "\" +:+ Str.dquote in
  let cmd :=
    "\(" +:+ q +:+ abspath env file1 +:+ q +:+ "," +:+ q
      +:+ abspath env file2 +:+ q +:+ "," +:+ pretty (test args)
      +:+ "," +:+ str_float env (chi2_value args)
      +:+ "," +:+ str_float env (rel_mean_diff args)
      +:+ "," +:+ str_float env (rel_entries_diff args)
      +:+ "," +:+ select_critical +:+ "," +:+ no_plots +:+ "\)" in
  let cmd := "root -l -b -q " +:+ ROOT_MACRO +:+ cmd in
  print ("Running " +:+ cmd);;
  let* status := ask (fun w => child_status env w cmd output_dir) in
  emit (EPopen cmd output_dir status);;
  ret 0.

(** *** SeverityAggregator *)

(** the loop body of [has_severity] for one severity [s] *)
Definition severity_step (res : gmap string (list string)) (r : bool)
    (s : string) : M bool :=
  match res !! s with
  | None | Some [] => ret r
  | Some names =>
      print ("Histograms for severity " +:+ s +:+ ":");;
      forM (fun _ n => print ("    " +:+ n)) names tt;;
      ret true
  end.

Definition has_severity (filename : string) (severity : list string)
  : M bool :=
  let* res := ask (fun w => test_summary env w filename) in
  forM (severity_step res) severity false.

Definition default_severity : list string := ["BAD"; "CRIT_NC"].

Definition add_to_summary (paths_to_summary : list string) (key : string)
    (summary_dict : list (string * list string))
  : M (list (string * list string)) :=
  let* summary_list :=
    forM (fun acc p =>
            let* flagged := has_severity p default_severity in
            ret (if flagged then acc ++ [p] else acc : list string))
         paths_to_summary [] in
  ret (dict_set key summary_list summary_dict).

Definition inspect (file : string) (severity : list string) : M bool :=
  has_severity file severity.

(** *** [rel_val_ttree] *)

Definition to_be_chained1 (dir1 dir2 : string) (files : list string)
    (combine_patterns : option (list string)) : list filenames :=
  if truthy combine_patterns then
    (fun cp =>
       PathList (join dir1 <$>
                 filter (fun hf => Str.contains cp hf = true) files))
      <$> default [] combine_patterns
  else (fun hf => PathStr (join dir1 hf)) <$> files.

Definition to_be_chained2 (dir1 dir2 : string) (files : list string)
    (combine_patterns : option (list string)) : list filenames :=
  if truthy combine_patterns then
    (fun cp =>
       PathList (join dir2 <$>
                 filter (fun hf => Str.contains cp hf = true) files))
      <$> default [] combine_patterns
  else (fun hf => PathStr (join dir1 hf)) <$> files.

Definition output_dirs (files : list string)
    (combine_patterns : option (list string)) : list string :=
  if truthy combine_patterns then
    (fun cp => cp +:+ "_dir") <$> default [] combine_patterns
  else (fun hf => hf +:+ "_dir") <$> files.

Definition rel_val_ttree (dir1 dir2 : string) (files : list string)
    (output_dir : string) (args : Args) (treename : string)
    (combine_patterns : option (list string)) : M Z :=
  forM (fun _ '(tbc1, tbc2, od) =>
          let output_dir_hf := join output_dir od in
          ensure_dir output_dir_hf;;
          make_generic_histograms_from_chain tbc1 tbc2
            (join output_dir_hf "file1.root")
            (join output_dir_hf "file2.root") treename;;
          rel_val_files (abspath env (join output_dir_hf "file1.root"))
                        (abspath env (join output_dir_hf "file2.root"))
                        args output_dir_hf;;
          ret tt)
       (zip (zip (to_be_chained1 dir1 dir2 files combine_patterns)
                 (to_be_chained2 dir1 dir2 files combine_patterns))
            (output_dirs files combine_patterns)) tt;;
  ret 0.

Definition rel_val_histograms (dir1 dir2 : string) (files : list string)
    (output_dir : string) (args : Args) : M unit :=
  forM (fun _ f =>
          let output_dir_f := join output_dir (f +:+ "_dir") in
          ensure_dir output_dir_f;;
          rel_val_files (join dir1 f) (join dir2 f) args output_dir_f;;
          ret tt)
       files tt.

(** *** Orchestrator: [rel_val_sim_dirs] and [rel_val] *)

Definition look_for : string := "Summary.json".

Definition any_flag (args : Args) : bool :=
  with_hits args || with_tpctracks args || with_kine args
  || with_analysis args || with_qc args.

(** [args.with_hits, ..., args.with_qc = (True,) * 5] *)
Definition enable_all (args : Args) : Args :=
  {| input := input args; output := output args; test := test args;
     chi2_value := chi2_value args; rel_mean_diff := rel_mean_diff args;
     rel_entries_diff := rel_entries_diff args;
     select_critical := select_critical args;
     threshold := threshold args;
     with_hits := true; detectors := detectors args;
     with_tpctracks := true; with_kine := true; with_analysis := true;
     with_qc := true; no_plots := no_plots args |}.

Definition mutual (dirs : list string) (glob_pattern : string)
    (grep : option (list string)) : M (list string) :=
  ask (fun w => find_mutual_files (fun p => glob env w p true)
                  dirs glob_pattern grep).

Definition verdicts_under (dir : string) : M (list string) :=
  ask (fun w => glob env w (dir +:+ "/**/" +:+ look_for) true).

Abbreviation summary := (list (string * list string)).

Definition category_hits (args : Args) (dir1 dir2 output_dir : string)
    (summary_dict : summary) : M summary :=
  let* hit_files :=
    mutual [dir1; dir2] "*Hits*.root" (Some (detectors args)) in
  let output_dir_hits := join output_dir "hits" in
  ensure_dir output_dir_hits;;
  rel_val_ttree dir1 dir2 hit_files output_dir_hits args "o2sim"
    (Some ((fun d => "Hits" +:+ d) <$> detectors args));;
  let* paths := verdicts_under output_dir_hits in
  add_to_summary paths "hist" summary_dict.

Definition category_tpctracks (args : Args) (dir1 dir2 output_dir : string)
    (summary_dict : summary) : M summary :=
  let* tpctrack_files := mutual [dir1; dir2] "tpctracks.root" None in
  let output_dir_tpctracks := join output_dir "tpctracks" in
  ensure_dir output_dir_tpctracks;;
  rel_val_ttree dir1 dir2 tpctrack_files output_dir_tpctracks args
    "tpcrec" (Some ["tpctracks.root"]);;
  let* paths := verdicts_under output_dir_tpctracks in
  add_to_summary paths "tpctracks" summary_dict.

Definition category_kine (args : Args) (dir1 dir2 output_dir : string)
    (summary_dict : summary) : M summary :=
  let* kine_files := mutual [dir1; dir2] "*Kine.root" None in
  let output_dir_kine := join output_dir "kine" in
  ensure_dir output_dir_kine;;
  rel_val_ttree dir1 dir2 kine_files output_dir_kine args "o2sim"
    (Some ["Kine.root"]);;
  let* paths := verdicts_under output_dir_kine in
  add_to_summary paths "kine" summary_dict.

Definition category_analysis (args : Args) (dir1 dir2 output_dir : string)
    (summary_dict : summary) : M summary :=
  let dir_analysis1 := join dir1 "Analysis" in
  let dir_analysis2 := join dir2 "Analysis" in
  let* analysis_files :=
    mutual [dir_analysis1; dir_analysis2] "*.root" None in
  let output_dir_analysis := join output_dir "analysis" in
  print (output_dir +:+ " " +:+ output_dir_analysis);;
  ensure_dir output_dir_analysis;;
  rel_val_histograms dir_analysis1 dir_analysis2 analysis_files
    output_dir_analysis args;;
  let* paths := verdicts_under output_dir_analysis in
  add_to_summary paths "analysis" summary_dict.

Definition category_qc (args : Args) (dir1 dir2 output_dir : string)
    (summary_dict : summary) : M summary :=
  let dir_qc1 := join dir1 "QC" in
  let dir_qc2 := join dir2 "QC" in
  let* qc_files := mutual [dir_qc1; dir_qc2] "*.root" None in
  let output_dir_qc := join output_dir "qc" in
  ensure_dir output_dir_qc;;
  rel_val_histograms dir_qc1 dir_qc2 qc_files output_dir_qc args;;
  let* paths := verdicts_under output_dir_qc in
  add_to_summary paths "qc" summary_dict.

(** [if flag: body], threading the summary *)
Definition when (flag : bool) (body : summary -> M summary)
    (summary_dict : summary) : M summary :=
  if flag then body summary_dict else ret summary_dict.

(** [with open(join(output_dir, name), "w") as f: json.dump(doc, f)].
    The file is created in [output_dir] (in the working directory when
    [output_dir] is empty): [open] raises [FileNotFoundError] when that
    directory does not exist.  A path that exists is taken to be a
    directory in which files can be created. *)
Definition dump_json (output_dir name : string) (doc : json_doc) : M unit :=
  let* ex := ask (fun w => path_exists env w output_dir) in
  if bool_decide (output_dir = "") || ex
  then emit (EJsonDump (join output_dir name) doc)
  else raise FileNotFoundError.

Definition rel_val_sim_dirs (args : Args) : M unit :=
  let dir1 := (input args).1 in
  let dir2 := (input args).2 in
  let output_dir := output args in
  let summary_dict : summary := [] in
  let* file_sizes_to_json := file_sizes [dir1; dir2] (1 # 2) in
  dump_json output_dir "file_sizes.json" file_sizes_to_json;;
  let args := if negb (any_flag args) then enable_all args else args in
  let* summary_dict :=
    when (with_hits args)
         (category_hits args dir1 dir2 output_dir) summary_dict in
  let* summary_dict :=
    when (with_tpctracks args)
         (category_tpctracks args dir1 dir2 output_dir) summary_dict in
  let* summary_dict :=
    when (with_kine args)
         (category_kine args dir1 dir2 output_dir) summary_dict in
  let* summary_dict :=
    when (with_analysis args)
         (category_analysis args dir1 dir2 output_dir) summary_dict in
  let* summary_dict :=
    when (with_qc args)
         (category_qc args dir1 dir2 output_dir) summary_dict in
  dump_json output_dir "SummaryToBeChecked.json" (JSummary summary_dict).

(** a Python return value: an [int] or [None] *)
Inductive pyval : Type :=
| PyInt (z : Z)
| PyNone.

(** the function bound to [func] in [rel_val] *)
Inductive callee : Type :=
| F_rel_val_files
| F_rel_val_sim_dirs.

(** [func(args)]: [rel_val_files] needs four positional arguments *)
Definition call (func : callee) (args : Args) : M pyval :=
  match func with
  | F_rel_val_files => raise TypeError
  | F_rel_val_sim_dirs => rel_val_sim_dirs args;; ret PyNone
  end.

Definition rel_val (args : Args) : M pyval :=
  let func : option callee := None in
  let* both_files :=
    ask (fun w => isfile env w (input args).1
                  && isfile env w (input args).2) in
  let func := if both_files then Some F_rel_val_files else func in
  let* both_sim :=
    ask (fun w => is_sim_dir w (input args).1
                  && is_sim_dir w (input args).2) in
  let func := if both_sim then Some F_rel_val_sim_dirs else func in
  match func with
  | None =>
      print "Please provide either 2 files or 2 simulation directories as input.";;
      ret (PyInt 1)
  | Some f =>
      ensure_dir (output args);;
      call f args
  end.

End Driver.

(** * Vocabulary of the statements *)

(** The division that the code makes for a pair of indices. *)
Definition quotient (sizes : list Z) (p : nat * nat) : result Q :=
  true_div (Z.abs (sizes !!! p.1 - sizes !!! p.2)) (sizes !!! p.2).

(** The quotient that the code compares with the threshold. *)
Definition rel_diff (sizes : list Z) (p : nat * nat) : Q :=
  double_quotient (Z.abs (sizes !!! p.1 - sizes !!! p.2)) (sizes !!! p.2).

(** The quotient of two positive integers by the division of binary64
    numbers that the Standard Library specifies ([None]: infinite). *)
Definition ieee_quotient (n d : positive) : option Q :=
  match SpecFloat.SFdiv 53 1024 (SpecFloat.S754_finite false n 0)
                                (SpecFloat.S754_finite false d 0) with
  | SpecFloat.S754_finite _ m e =>
      Some (Qmake (Z.pos m * 2 ^ Z.max 0 e) (Z.to_pos (2 ^ Z.max 0 (- e))))
  | SpecFloat.S754_zero _ => Some 0%Q
  | _ => None
  end.

(** [true_div] gives the same number, or overflows as well *)
Definition agrees (p : positive * positive) : bool :=
  match ieee_quotient p.1 p.2, true_div (Z.pos p.1) (Z.pos p.2) with
  | Some q, Ok q' => Qeq_bool q q'
  | None, Raise OverflowError => true
  | _, _ => false
  end.

(** A size small enough for the quotients of the comparison to stay in
    the range of a double; the size of a file is. *)
Definition fits (s : Z) : Prop := Z.abs s < 2 ^ 1022.

(** The doubles that Python reads for the literals [0.1] and [0.01]. *)
Definition double_0_1 : Q := 3602879701896397 # 36028797018963968.

Definition double_0_01 : Q := 5764607523034235 # 576460752303423488.

(** [is_off_t] for a size that is one of two. *)
Definition is_off_t_if (b : bool) (x y : Z)
    (Hx : is_off_t x = true) (Hy : is_off_t y = true)
  : is_off_t (if b then x else y) = true :=
  match b with
  | true => Hx
  | false => Hy
  end.

(** The listing of one directory, made relative to it. *)
Definition listing (glob : string -> list string) (glob_pattern d : string)
  : list string :=
  relative_names (glob (d +:+ "/**/" +:+ glob_pattern)) d.

(** A computation that raises no exception, whatever the world, and
    only adds to the trace. *)
Definition total {A} (m : M A) : Prop :=
  ∀ w, ∃ a ext, m w = (Ok a, w ++ ext).


(** A requested severity is present with a non-empty list of names. *)
Definition flagged (res : gmap string (list string))
    (severity : list string) : Prop :=
  ∃ s names, s ∈ severity ∧ res !! s = Some names ∧ names ≠ [].

(** The environment in which every verdict file holds the summary [res]. *)
Definition with_test_summary (env : Env) (res : gmap string (list string))
  : Env :=
  {| O2DPG_ROOT := O2DPG_ROOT env; isfile := isfile env; isdir := isdir env;
     path_exists := path_exists env; glob := glob env;
     abspath := abspath env; st_size := st_size env;
     st_size_range := st_size_range env;
     child_status := child_status env;
     test_summary := fun _ _ => res;
     tfile_open := tfile_open env; leaves := leaves env; Draw := Draw env;
     str_float := str_float env |}.

(** the command line that [rel_val_files] builds *)
Definition root_command (env : Env) (file1 file2 : string) (args : Args)
  : string :=
  "root -l -b -q " +:+ ROOT_MACRO env +:+
  ("\(" +:+ ("\" +:+ Str.dquote) +:+ abspath env file1
     +:+ ("\" +:+ Str.dquote) +:+ "," +:+ ("\" +:+ Str.dquote)
     +:+ abspath env file2 +:+ ("\" +:+ Str.dquote) +:+ ","
     +:+ pretty (test args)
     +:+ "," +:+ str_float env (chi2_value args)
     +:+ "," +:+ str_float env (rel_mean_diff args)
     +:+ "," +:+ str_float env (rel_entries_diff args)
     +:+ "," +:+ kbool (select_critical args)
     +:+ "," +:+ kbool (no_plots args) +:+ "\)").

(** the world after [if not exists(path): makedirs(path)] *)
Definition ensured (env : Env) (path : string) (w : World) : World :=
  if path_exists env w path then w else w ++ [EMakedirs path].

(** the fill from the first chain succeeds for branch [b] *)
Definition fills_first (env : Env) (chain1 : chain) (b : string) : Prop :=
  Draw env chain1 (b +:+ ">>" +:+ h_name_of b) ≠ -1.

(** what the first loop writes for a branch: the histogram of the first
    chain, into the first output file *)
Definition written_first (chain1 : chain) (output_filepath1 b : string)
  : event :=
  EHistWrite output_filepath1 (TH1 (h_name_of b) (Some chain1)).

(** what the second loop writes for a branch: the same histogram, empty
    when the fill from the second chain fails, into the second file *)
Definition written_second (env : Env) (chain2 : chain)
    (output_filepath2 b : string) : event :=
  EHistWrite output_filepath2
    (TH1 (h_name_of b)
         (if bool_decide (Draw env chain2 (b +:+ ">>+" +:+ h_name_of b) = -1)
          then None else Some chain2)).

(** the histogram that the first loop keeps for a branch *)
Definition template (chain1 : chain) (b : string) : hist :=
  TH1 (h_name_of b) (Some chain1).

(** what the second output file receives for the branches [bs], when the
    histogram of the i-th branch is filled from [contents !! i] *)
Definition second_file (output_filepath2 : string) (bs : list string)
    (contents : list (option chain)) : list event :=
  zip_with (fun b c => EHistWrite output_filepath2 (TH1 (h_name_of b) c))
           bs contents.

(** the branches that [make_generic_histograms_from_chain] loops over *)
Definition looped_branches (env : Env) (chain1 chain2 : chain)
  : list string :=
  if bool_decide (branch_names env chain1 ≠ branch_names env chain2)
  then set_and (branch_names env chain1) (branch_names env chain2)
  else branch_names env chain1.

(** the warning about different branches, when there is one *)
Definition schema_warning (env : Env) (chain1 chain2 : chain) : list event :=
  if bool_decide (branch_names env chain1 ≠ branch_names env chain2)
  then [EPrint "WARNING: Found different branches in input files"]
  else [].


(** ** Concrete inputs

    [glob_two_dirs]: two directories that both hold
    [o2sim_HitsITS_TPC.root].

    [env_example]: two simulation directories [sim1] and [sim2] that
    share one hit file, the only files; a directory exists once
    [makedirs] made it; the
    child process exits with status 1; every verdict reports one BAD
    histogram; of the leaves [px], [py] and [pz] the first chain cannot
    draw [py] and the second cannot draw [pz]. *)

Definition glob_two_dirs (pattern : string) : list string :=
  if bool_decide (pattern = "sim1/**/*Hits*.root")
  then ["sim1/o2sim_HitsITS_TPC.root"]
  else if bool_decide (pattern = "sim2/**/*Hits*.root")
  then ["sim2/o2sim_HitsITS_TPC.root"]
  else [].

Definition made (w : World) (p : string) : bool :=
  existsb (fun e => match e with
                    | EMakedirs q => bool_decide (q = p)
                    | _ => false
                    end) w.

Definition env_example : Env :=
  {| O2DPG_ROOT := "/opt/O2DPG";
     isfile := fun _ p =>
       bool_decide (p ∈ ["sim1/o2sim_HitsITS.root";
                         "sim2/o2sim_HitsITS.root"]);
     isdir := fun _ p => bool_decide (p ∈ ["sim1"; "sim2"]);
     path_exists := made;
     glob := fun _ p _ =>
       if bool_decide (p = "sim1/pipeline*") then ["sim1/pipeline_metrics.json"]
       else if bool_decide (p = "sim2/pipeline*")
       then ["sim2/pipeline_metrics.json"]
       else if bool_decide (p ∈ ["sim1/**/*Hits*.root"; "sim1/**/*.root"])
       then ["sim1/o2sim_HitsITS.root"]
       else if bool_decide (p ∈ ["sim2/**/*Hits*.root"; "sim2/**/*.root"])
       then ["sim2/o2sim_HitsITS.root"]
       else if bool_decide (p = "out/hits/**/Summary.json")
       then ["out/hits/HitsITS_dir/Summary.json"]
       else [];
     abspath := fun p => join "/work" p;
     st_size := fun _ p =>
       if bool_decide (p = "sim1/o2sim_HitsITS.root") then 100 else 300;
     st_size_range := fun _ p => is_off_t_if _ 100 300 eq_refl eq_refl;
     child_status := fun _ _ _ => 1;
     test_summary := fun _ _ => {[ "BAD" := ["h1"] ]};
     tfile_open := fun _ _ _ => true;
     leaves := fun _ =>
       [("px", "Float_t"); ("py", "Float_t"); ("pz", "Float_t");
        ("name", "TString")];
     Draw := fun c e =>
       if String.prefix "py>>" e
          && String.prefix "sim1" (default "" (head (added c)))
       then -1
       else if String.prefix "pz>>" e
               && String.prefix "sim2" (default "" (head (added c)))
       then -1
       else 10;
     str_float := fun q =>
       pretty (Qnum q) +:+ "/" +:+ pretty (Zpos (Qden q)) |}.

Definition args_example : Args :=
  {| input := ("sim1", "sim2"); output := "out"; test := 1;
     chi2_value := 3 # 2; rel_mean_diff := 3 # 2; rel_entries_diff := double_0_01;
     select_critical := false; threshold := double_0_1;
     with_hits := false; detectors := ["ITS"];
     with_tpctracks := false; with_kine := false; with_analysis := false;
     with_qc := false; no_plots := false |}.

(** only the hits are asked for *)
Definition args_hits : Args :=
  {| input := ("sim1", "sim2"); output := "out"; test := 1;
     chi2_value := 3 # 2; rel_mean_diff := 3 # 2; rel_entries_diff := double_0_01;
     select_critical := false; threshold := double_0_1;
     with_hits := true; detectors := ["ITS"];
     with_tpctracks := false; with_kine := false; with_analysis := false;
     with_qc := false; no_plots := false |}.

(** a simulation directory against a single file *)
Definition args_mixed : Args :=
  {| input := ("sim1", "sim2/o2sim_HitsITS.root"); output := "out";
     test := 1; chi2_value := 3 # 2; rel_mean_diff := 3 # 2;
     rel_entries_diff := double_0_01; select_critical := false;
     threshold := double_0_1; with_hits := false; detectors := ["ITS"];
     with_tpctracks := false; with_kine := false; with_analysis := false;
     with_qc := false; no_plots := false |}.

(** ** Vocabulary of the further properties *)

(** an effect that is only a printed line *)
Definition is_print (e : event) : Prop :=
  match e with
  | EPrint _ => True
  | _ => False
  end.

(** the sizes of one file under the directories [dirs] *)
Definition sizes_under (env : Env) (w : World) (dirs : list string)
    (f : string) : list Z :=
  (fun d => st_size env w (join d f)) <$> dirs.

(** the comparison of the sizes returns at least one pair *)
Definition exceeds_somewhere (sizes : list Z) (threshold : Q) : Prop :=
  ∃ p ps, exceeding_difference_thresh sizes threshold = Ok (p :: ps).

(** [env_example] with an empty hit file under [sim2] *)
Definition env_empty_file : Env :=
  {| O2DPG_ROOT := O2DPG_ROOT env_example; isfile := isfile env_example;
     isdir := isdir env_example; path_exists := path_exists env_example;
     glob := glob env_example; abspath := abspath env_example;
     st_size := fun _ p =>
       if bool_decide (p = "sim2/o2sim_HitsITS.root") then 0 else 100;
     st_size_range := fun _ p => is_off_t_if _ 0 100 eq_refl eq_refl;
     child_status := child_status env_example;
     test_summary := test_summary env_example;
     tfile_open := tfile_open env_example; leaves := leaves env_example;
     Draw := Draw env_example; str_float := str_float env_example |}.



(** the summary has a non-empty list of names for the severity [s] *)
Definition has_names (res : gmap string (list string)) (s : string) : bool :=
  match res !! s with
  | Some (_ :: _) => true
  | _ => false
  end.

(** the lines that [has_severity] prints for the summary [res] *)
Definition severity_lines (res : gmap string (list string))
    (severity : list string) : list event :=
  s ← severity;
  match res !! s with
  | Some (n :: names) =>
      EPrint ("Histograms for severity " +:+ s +:+ ":")
      :: ((fun n => EPrint ("    " +:+ n)) <$> n :: names)
  | _ => []
  end.

(** [b] is the name of a leaf of accepted type of the chain [c] *)
Definition numeric_leaf (env : Env) (c : chain) (b : string) : Prop :=
  ∃ type_name, (b, type_name) ∈ leaves env c ∧ type_name ∈ accepted_types.

(** the arguments with another value of [--threshold] *)
Definition set_threshold (t : Q) (args : Args) : Args :=
  {| input := input args; output := output args; test := test args;
     chi2_value := chi2_value args; rel_mean_diff := rel_mean_diff args;
     rel_entries_diff := rel_entries_diff args;
     select_critical := select_critical args;
     threshold := t;
     with_hits := with_hits args; detectors := detectors args;
     with_tpctracks := with_tpctracks args; with_kine := with_kine args;
     with_analysis := with_analysis args; with_qc := with_qc args;
     no_plots := no_plots args |}.

(** [env_example] where no ROOT file can be opened *)
Definition env_no_output : Env :=
  {| O2DPG_ROOT := O2DPG_ROOT env_example; isfile := isfile env_example;
     isdir := isdir env_example; path_exists := path_exists env_example;
     glob := glob env_example; abspath := abspath env_example;
     st_size := st_size env_example;
     st_size_range := st_size_range env_example;
     child_status := child_status env_example;
     test_summary := test_summary env_example;
     tfile_open := fun _ _ _ => false; leaves := leaves env_example;
     Draw := Draw env_example; str_float := str_float env_example |}.

(** [env_example] where only [out/file1.root] can be opened *)
Definition env_second_missing : Env :=
  {| O2DPG_ROOT := O2DPG_ROOT env_example; isfile := isfile env_example;
     isdir := isdir env_example; path_exists := path_exists env_example;
     glob := glob env_example; abspath := abspath env_example;
     st_size := st_size env_example;
     st_size_range := st_size_range env_example;
     child_status := child_status env_example;
     test_summary := test_summary env_example;
     tfile_open := fun _ path _ => bool_decide (path = "out/file1.root");
     leaves := leaves env_example;
     Draw := Draw env_example; str_float := str_float env_example |}.

(** the verdict file [p] has names for [BAD] or [CRIT_NC] *)
Definition verdict_flagged (env : Env) (w : World) (p : string) : bool :=
  existsb (has_names (test_summary env w p)) default_severity.

(** * Properties *)

(** ** SizeAuditor *)

Section SizeAuditorFacts.

Implicit Types (sizes : list Z) (threshold : Q).

Lemma elem_of_combinations2 n i j :
  (i, j) ∈ combinations2 n ↔ (i < j < n)%nat.
Proof.
  unfold combinations2. rewrite list_elem_of_bind. split.
  - intros (i1 & Hin & Hi1). apply list_elem_of_fmap in Hin as (i2 & Heq & Hi2).
    inversion Heq; subst. apply elem_of_seq in Hi1, Hi2. lia.
  - intros Hij. exists i. split.
    + apply list_elem_of_fmap. exists j. split; [done|]. apply elem_of_seq. lia.
    + apply elem_of_seq. lia.
Qed.

Lemma Qgtb_true q t : Qgtb q t = true ↔ Qlt t q.
Proof.
  unfold Qgtb. rewrite negb_true_iff, <- not_true_iff_false, Qle_bool_iff.
  split; [apply Qnot_le_lt | apply Qlt_not_le].
Qed.

(** *** The rounded quotient *)

Lemma half_even_le (n d : Z) : half_even n d ≤ n / d + 1.
Proof. unfold half_even. repeat case_match; lia. Qed.

Lemma half_even_nonneg (n d : Z) : 0 ≤ n → 0 < d → 0 ≤ half_even n d.
Proof.
  intros Hn Hd. unfold half_even.
  assert (0 ≤ n / d) by (apply Z.div_pos; lia).
  repeat case_match; lia.
Qed.

Lemma binade_le (n d : Z) : 0 < n → 0 < d → binade n d ≤ Z.log2 n.
Proof.
  intros Hn Hd. unfold binade. pose proof (Z.log2_nonneg d).
  case_match; lia.
Qed.

(** Below [2^1023] the rounded quotient is a double: rounding moves the
    quotient [n/d <= n] by at most one unit in the last place, which is
    at most [n]. *)
Lemma nearest_double_in_range (n d : Z) :
  0 < n < 2 ^ 1023 → 0 < d →
  overflows (nearest_double n d) = false
  ∧ overflows (Qopp (nearest_double n d)) = false.
Proof.
  intros Hn Hd. unfold nearest_double.
  set (e := Z.max (binade n d - 52) (-1074)).
  set (m := half_even _ _).
  assert (Hm0 : 0 ≤ m).
  { apply half_even_nonneg.
    - apply Z.mul_nonneg_nonneg; [lia|]. apply Z.pow_nonneg. lia.
    - apply Z.mul_pos_pos; [lia|]. apply Z.pow_pos_nonneg; lia. }
  assert (Hlt : m * 2 ^ Z.max 0 e < 2 ^ 1024 * 2 ^ Z.max 0 (- e)).
  { pose proof (half_even_le (n * 2 ^ Z.max 0 (- e)) (d * 2 ^ Z.max 0 e)) as Hm.
    fold m in Hm.
    pose proof (binade_le n d ltac:(lia) Hd) as Hk.
    pose proof (Z.log2_spec n ltac:(lia)) as [Hlog _].
    change (2 ^ 1024) with (2 * 2 ^ 1023).
    destruct (Z_lt_le_dec e 0) as [He|He].
    - rewrite (Z.max_l 0 e) in * by lia. rewrite (Z.max_r 0 (- e)) in * by lia.
      rewrite Z.pow_0_r, Z.mul_1_r in *.
      set (s := 2 ^ (- e)) in *.
      assert (Hs : 0 < s) by (apply Z.pow_pos_nonneg; lia).
      assert (n * s / d ≤ n * s).
      { apply Z.div_le_upper_bound; [lia|]. nia. }
      nia.
    - rewrite (Z.max_r 0 e) in * by lia. rewrite (Z.max_l 0 (- e)) in * by lia.
      rewrite Z.pow_0_r, Z.mul_1_r in *.
      assert (Hpe : 2 ^ e ≤ n).
      { etrans; [|exact Hlog]. apply Z.pow_le_mono_r; lia. }
      set (s := 2 ^ e) in *.
      assert (Hs : 0 < s) by (apply Z.pow_pos_nonneg; lia).
      assert (n / (d * s) * s ≤ n).
      { assert (n / (d * s) * (d * s) ≤ n)
          by (rewrite Z.mul_comm; apply Z.mul_div_le; nia).
        assert (0 ≤ n / (d * s)) by (apply Z.div_pos; nia).
        nia. }
      nia. }
  assert (Hpos : 0 < 2 ^ Z.max 0 (- e)) by (apply Z.pow_pos_nonneg; lia).
  unfold overflows, Qle_bool; simpl.
  rewrite Z2Pos.id by done.
  rewrite Z.mul_1_r, Z.abs_opp, Z.abs_eq by nia.
  split; apply Z.leb_gt; lia.
Qed.

Lemma true_div_zero (a : Z) : true_div a 0 = Raise ZeroDivisionError.
Proof. reflexivity. Qed.

Lemma true_div_cases (a b : Z) :
  (b = 0 ∧ true_div a b = Raise ZeroDivisionError)
  ∨ (b ≠ 0 ∧ true_div a b = Raise OverflowError)
  ∨ (b ≠ 0 ∧ true_div a b = Ok (double_quotient a b)).
Proof.
  unfold true_div. destruct (decide (b = 0)) as [Hz|Hnz]; [by left|].
  right. destruct (overflows _); [by left | by right].
Qed.

Lemma true_div_in_range (a b : Z) :
  b ≠ 0 → Z.abs a < 2 ^ 1023 → true_div a b = Ok (double_quotient a b).
Proof.
  intros Hb Ha. unfold true_div. rewrite decide_False by done.
  assert (Hov : overflows (double_quotient a b) = false).
  { unfold double_quotient. destruct (decide (a = 0)); [reflexivity|].
    destruct (nearest_double_in_range (Z.abs a) (Z.abs b)) as [H1 H2];
      [lia..|].
    by destruct (decide _). }
  by rewrite Hov.
Qed.

(** On quotients that are exact, that round down, that round up, that
    are ties, that are below the normal range or beyond the largest
    double, the division agrees with the division of binary64 numbers
    of the Standard Library. *)
Example true_div_agrees_with_SFdiv :
  forallb agrees
    [(1, 3); (1, 10); (2, 3); (195, 300); (205, 300); (1, 1);
     (500000000000000001, 1000000000000000000);
     (2 ^ 61 + 1, 2 ^ 62); (2 ^ 53 + 1, 1); (2 ^ 53 + 3, 1);
     (2 ^ 54 + 2, 1); (2 ^ 54 + 6, 1); (2 ^ 54 + 7, 3);
     (2 ^ 1024 - 2 ^ 970 - 1, 1); (2 ^ 1024 - 2 ^ 970, 1); (10 ^ 400, 1);
     (1, 2 ^ 1022); (1, 2 ^ 1074); (1, 2 ^ 1075); (1, 2 ^ 1075 + 1);
     (3, 2 ^ 1075); (3, 2 ^ 1076); (5, 10 ^ 330); (7, 2 ^ 1030)]%positive
  = true.
Proof. vm_compute. reflexivity. Qed.

(** *** The test of one pair *)

Lemma pair_exceeds_quotient sizes threshold p :
  pair_exceeds sizes threshold p
  = bindR (quotient sizes p) (fun q => Ok (Qgtb q threshold)).
Proof.
  destruct p as [i1 i2]. unfold pair_exceeds, quotient; simpl.
  destruct (true_div _ _) as [q|e]; simpl; [|done].
  by destruct (Qgtb q threshold).
Qed.

Lemma quotient_cases sizes p :
  (sizes !!! p.2 = 0 ∧ quotient sizes p = Raise ZeroDivisionError)
  ∨ (sizes !!! p.2 ≠ 0 ∧ quotient sizes p = Raise OverflowError)
  ∨ (sizes !!! p.2 ≠ 0 ∧ quotient sizes p = Ok (rel_diff sizes p)).
Proof. apply true_div_cases. Qed.

Lemma quotient_in_range sizes (i j : nat) :
  Forall fits sizes → (i < j < length sizes)%nat → sizes !!! j ≠ 0 →
  quotient sizes (i, j) = Ok (rel_diff sizes (i, j)).
Proof.
  intros Hfits Hij Hnz. apply true_div_in_range; [done|]. simpl.
  assert (Hi : fits (sizes !!! i)).
  { apply (proj1 (Forall_forall _ _) Hfits).
    apply list_elem_of_lookup_total_2. lia. }
  assert (Hj : fits (sizes !!! j)).
  { apply (proj1 (Forall_forall _ _) Hfits).
    apply list_elem_of_lookup_total_2. lia. }
  unfold fits in Hi, Hj. change (2 ^ 1023) with (2 * 2 ^ 1022).
  set (bound := 2 ^ 1022) in *. lia.
Qed.

(** *** The loop over the pairs *)

(** as long as no division raises *)
Lemma collect_pairs sizes threshold (ps acc : list (nat * nat)) :
  Forall (fun p => quotient sizes p = Ok (rel_diff sizes p)) ps →
  forR (fun diff_indices p =>
          bindR (pair_exceeds sizes threshold p) (fun b =>
          Ok (if b then diff_indices ++ [p] else diff_indices))) ps acc
  = Ok (acc ++ filter (fun p => Qgtb (rel_diff sizes p) threshold = true) ps).
Proof.
  intros Hps. revert acc.
  induction Hps as [|p ps Hp _ IH]; intros acc; simpl.
  - by rewrite app_nil_r.
  - rewrite pair_exceeds_quotient, Hp. simpl.
    rewrite IH, filter_cons.
    destruct (Qgtb (rel_diff sizes p) threshold) eqn:Hq.
    + rewrite decide_True by done. by rewrite <- app_assoc.
    + rewrite decide_False by congruence. done.
Qed.

(** the loop ends with the exception of the first division that raises *)
Lemma collect_pairs_outcome sizes threshold (ps acc : list (nat * nat)) :
  match forR (fun diff_indices p =>
                bindR (pair_exceeds sizes threshold p) (fun b =>
                Ok (if b then diff_indices ++ [p] else diff_indices))) ps acc
  with
  | Ok _ => Forall (fun p => quotient sizes p = Ok (rel_diff sizes p)) ps
  | Raise e =>
      ∃ ps1 p ps2,
        ps = ps1 ++ p :: ps2 ∧ quotient sizes p = Raise e
        ∧ Forall (fun p => quotient sizes p = Ok (rel_diff sizes p)) ps1
  end.
Proof.
  revert acc. induction ps as [|p ps IH]; intros acc; simpl; [constructor|].
  rewrite pair_exceeds_quotient.
  destruct (quotient_cases sizes p) as [[_ Hq]|[[_ Hq]|[_ Hq]]];
    rewrite Hq; simpl.
  - by exists [], p, ps.
  - by exists [], p, ps.
  - match goal with |- context [forR ?f ps ?acc'] => specialize (IH acc') end.
    destruct (forR _ ps _) as [l|e].
    + by constructor.
    + destruct IH as (ps1 & p' & ps2 & -> & Hp' & Hps1).
      exists (p :: ps1), p', ps2. split; [done|]. split; [done|].
      by constructor.
Qed.

Lemma denominators_in_tail sizes i j :
  (i < j < length sizes)%nat → sizes !!! j ∈ tail sizes.
Proof.
  intros Hij. destruct sizes as [|s0 sizes]; simpl in *; [lia|].
  destruct j as [|j]; [lia|]. simpl.
  apply list_elem_of_lookup_total_2. lia.
Qed.

Lemma zero_in_tail sizes :
  0 ∈ tail sizes →
  ∃ i j, (i, j) ∈ combinations2 (length sizes) ∧ sizes !!! j = 0.
Proof.
  intros Hz.
  destruct sizes as [|s0 sizes]; simpl in Hz; [by apply elem_of_nil in Hz|].
  apply list_elem_of_lookup_total in Hz as (j & Hj & Hzj).
  exists O, (S j). split; [|done].
  apply elem_of_combinations2. simpl. lia.
Qed.

(** The value of the function when no division raises. *)
Lemma exceeding_difference_thresh_value sizes threshold :
  0 ∉ tail sizes → Forall fits sizes →
  exceeding_difference_thresh sizes threshold
  = Ok (filter (fun p => Qgtb (rel_diff sizes p) threshold = true)
               (combinations2 (length sizes))).
Proof.
  intros Hnz Hfits. unfold exceeding_difference_thresh.
  apply (collect_pairs _ _ _ []). apply Forall_forall. intros [i j] Hin.
  apply elem_of_combinations2 in Hin. apply quotient_in_range; [done..|].
  intros Hz. apply Hnz. rewrite <- Hz. by eapply denominators_in_tail.
Qed.

(** The function returns only the value above. *)
Lemma exceeding_difference_thresh_Ok sizes threshold diff_indices :
  exceeding_difference_thresh sizes threshold = Ok diff_indices →
  diff_indices
  = filter (fun p => Qgtb (rel_diff sizes p) threshold = true)
           (combinations2 (length sizes)).
Proof.
  unfold exceeding_difference_thresh. intros Hrun.
  pose proof (collect_pairs_outcome sizes threshold
                (combinations2 (length sizes)) []) as Hout.
  rewrite Hrun in Hout.
  rewrite (collect_pairs _ _ _ [] Hout) in Hrun. by injection Hrun as <-.
Qed.

(** The exception of the function is the one of a division. *)
Lemma exceeding_difference_thresh_Raise sizes threshold e :
  exceeding_difference_thresh sizes threshold = Raise e →
  ∃ i j, (i < j < length sizes)%nat ∧ quotient sizes (i, j) = Raise e.
Proof.
  unfold exceeding_difference_thresh. intros Hrun.
  pose proof (collect_pairs_outcome sizes threshold
                (combinations2 (length sizes)) []) as Hout.
  rewrite Hrun in Hout. destruct Hout as (ps1 & [i j] & ps2 & Hps & Hq & _).
  exists i, j. split; [|done]. apply elem_of_combinations2.
  rewrite Hps. apply elem_of_app. right. apply list_elem_of_here.
Qed.

(** A zero in a denominator position makes the function raise. *)
Lemma zero_divisor_raises sizes threshold :
  0 ∈ tail sizes →
  ∃ e, exceeding_difference_thresh sizes threshold = Raise e.
Proof.
  intros (i & j & Hin & Hz)%zero_in_tail.
  destruct (exceeding_difference_thresh sizes threshold) as [l|e] eqn:Hrun;
    [|by exists e].
  unfold exceeding_difference_thresh in Hrun.
  pose proof (collect_pairs_outcome sizes threshold
                (combinations2 (length sizes)) []) as Hout.
  rewrite Hrun in Hout.
  pose proof (proj1 (Forall_forall _ _) Hout _ Hin) as Hq.
  unfold quotient in Hq; simpl in Hq. rewrite Hz, true_div_zero in Hq.
  discriminate.
Qed.

(** With sizes in range, the only exception is [ZeroDivisionError]. *)
Lemma in_range_raises sizes threshold e :
  Forall fits sizes →
  exceeding_difference_thresh sizes threshold = Raise e →
  e = ZeroDivisionError ∧ 0 ∈ tail sizes.
Proof.
  intros Hfits (i & j & Hij & Hq)%exceeding_difference_thresh_Raise.
  destruct (decide (sizes !!! j = 0)) as [Hz|Hnz].
  - unfold quotient in Hq; simpl in Hq. rewrite Hz, true_div_zero in Hq.
    injection Hq as <-. split; [done|].
    rewrite <- Hz. by eapply denominators_in_tail.
  - rewrite quotient_in_range in Hq by done. discriminate.
Qed.

Lemma exceeding_difference_thresh_cases sizes threshold :
  Forall fits sizes →
  (0 ∈ tail sizes
   ∧ exceeding_difference_thresh sizes threshold = Raise ZeroDivisionError)
  ∨ ((0 ∉ tail sizes)
     ∧ exceeding_difference_thresh sizes threshold
       = Ok (filter (fun p => Qgtb (rel_diff sizes p) threshold = true)
                    (combinations2 (length sizes)))).
Proof.
  intros Hfits. destruct (decide (0 ∈ tail sizes)) as [Hz|Hnz].
  - left. split; [done|].
    destruct (zero_divisor_raises sizes threshold Hz) as [e He].
    by destruct (in_range_raises _ _ _ Hfits He) as [-> _].
  - right. split; [done|]. by apply exceeding_difference_thresh_value.
Qed.

Lemma off_t_fits (z : Z) : is_off_t z = true → fits z.
Proof.
  unfold is_off_t, fits. intros [H0 H63]%andb_true_iff.
  apply Z.leb_le in H0. apply Z.ltb_lt in H63.
  assert (2 ^ 63 ≤ 2 ^ 1022) by (apply Z.pow_le_mono_r; lia).
  lia.
Qed.

End SizeAuditorFacts.

(** C8, as stated, fails: the code compares the quotient that the
    division has rounded to a double.  For the sizes 1500000000000000001
    and 10^18 the quotient exceeds the threshold 0.5, by 10^-18, and
    rounds to 0.5: the pair is not flagged. *)
Lemma exceeding_difference_thresh_rounds :
  exceeding_difference_thresh
    [1500000000000000001; 1000000000000000000] (1 # 2) = Ok []
  ∧ Qlt (1 # 2)
        (Qdiv (inject_Z (Z.abs (1500000000000000001 - 1000000000000000000)))
              (inject_Z 1000000000000000000))
  ∧ (0 ∉ tail [1500000000000000001; 1000000000000000000])
  ∧ Forall fits [1500000000000000001; 1000000000000000000].
Proof.
  split; [vm_compute; reflexivity|]. split; [reflexivity|]. split.
  - intros Hin%list_elem_of_In. simpl in Hin. lia.
  - repeat constructor.
Qed.

(** C8, amended.  For the sizes [100, 105, 300] and the threshold 0.1
    exactly the pairs (0,2) and (1,2) are flagged.  In general, when no
    size in a denominator position is zero and the sizes are in range,
    [exceeding_difference_thresh] returns a list, and a pair (i, j) is in
    it exactly when i < j are indices of [sizes] and the quotient
    |size_i - size_j| / size_j, rounded to the nearest double, exceeds
    the threshold. *)
Theorem exceeding_difference_thresh_flags (sizes : list Z) (threshold : Q)
    (Hnz : 0 ∉ tail sizes) (Hfits : Forall fits sizes) :
  exceeding_difference_thresh [100; 105; 300] double_0_1
    = Ok [(0, 2); (1, 2)]%nat
  ∧ ∃ diff_indices,
      exceeding_difference_thresh sizes threshold = Ok diff_indices
      ∧ ∀ i j : nat,
          (i, j) ∈ diff_indices ↔
          (i < j < length sizes)%nat
          ∧ Qlt threshold
                (double_quotient (Z.abs (sizes !!! i - sizes !!! j))
                                 (sizes !!! j)).
Proof.
  split; [vm_compute; reflexivity|].
  eexists. split; [by apply exceeding_difference_thresh_value|].
  intros i j.
  rewrite list_elem_of_filter, elem_of_combinations2, Qgtb_true.
  unfold rel_diff; simpl. tauto.
Qed.

Lemma exceeding_difference_thresh_flags_witness :
  (0 ∉ tail [100; 105; 300])
  ∧ Forall fits [100; 105; 300]
  ∧ exceeding_difference_thresh [100; 105; 300] double_0_1
    = Ok [(0, 2); (1, 2)]%nat.
Proof.
  assert (H : 0 ∉ tail [100; 105; 300])
    by (intros Hin%list_elem_of_In; simpl in Hin; lia).
  assert (Hfits : Forall fits [100; 105; 300])
    by (repeat constructor).
  split; [exact H|]. split; [exact Hfits|].
  exact (proj1 (exceeding_difference_thresh_flags [100; 105; 300] double_0_1
                  H Hfits)).
Defined.

(** C2.  The division is not guarded: as soon as a size in a denominator
    position (any position but the first) is zero,
    [exceeding_difference_thresh] raises an exception instead of
    returning the flagged pairs, and the exception is
    [ZeroDivisionError] whenever the sizes are in range, as the sizes of
    files are. *)
Theorem exceeding_difference_thresh_zero_divisor (sizes : list Z)
    (threshold : Q) (Hz : 0 ∈ tail sizes) :
  (∃ e, exceeding_difference_thresh sizes threshold = Raise e)
  ∧ (Forall fits sizes →
     exceeding_difference_thresh sizes threshold = Raise ZeroDivisionError).
Proof.
  split; [by apply zero_divisor_raises|]. intros Hfits.
  by destruct (exceeding_difference_thresh_cases sizes threshold Hfits)
    as [[_ ?]|[? _]].
Qed.

Lemma exceeding_difference_thresh_zero_divisor_witness :
  (0 ∈ tail [100; 0])
  ∧ exceeding_difference_thresh [100; 0] double_0_1 = Raise ZeroDivisionError.
Proof.
  assert (H : 0 ∈ tail [100; 0]) by (simpl; apply list_elem_of_here).
  split; [exact H|].
  apply (exceeding_difference_thresh_zero_divisor [100; 0] double_0_1 H).
  repeat constructor.
Defined.

(** Two sizes that are both zero raise as well, and a zero size in the
    numerator position only is flagged only below the threshold 1. *)
Example exceeding_difference_thresh_zero_cases :
  exceeding_difference_thresh [0; 0] double_0_1 = Raise ZeroDivisionError
  ∧ exceeding_difference_thresh [0; 100] double_0_1 = Ok [(0, 1)%nat]
  ∧ exceeding_difference_thresh [0; 100] (1 # 1) = Ok [].
Proof. split; [|split]; vm_compute; reflexivity. Qed.

(** ** PathSetMatcher *)

Section PathSetMatcherFacts.

Variable glob : string -> list string.

Lemma elem_of_set_and (a b : list string) (x : string) :
  x ∈ set_and a b ↔ x ∈ a ∧ x ∈ b.
Proof.
  unfold set_and.
  rewrite elem_of_elements, elem_of_intersection, !elem_of_list_to_set.
  done.
Qed.

Lemma NoDup_set_and (a b : list string) : NoDup (set_and a b).
Proof. apply NoDup_elements. Qed.

Lemma elem_of_foldl_set_and (rest : list (list string)) (f0 : list string)
    (x : string) :
  x ∈ foldl set_and f0 rest ↔ x ∈ f0 ∧ Forall (fun f => x ∈ f) rest.
Proof.
  revert f0. induction rest as [|f rest IH]; intros f0; simpl.
  - rewrite Forall_nil. tauto.
  - rewrite IH, elem_of_set_and, Forall_cons. tauto.
Qed.

Lemma NoDup_foldl_set_and (rest : list (list string)) (f0 : list string) :
  rest ≠ [] → NoDup (foldl set_and f0 rest).
Proof.
  destruct rest as [|f rest _] using rev_ind; [done|]. intros _.
  rewrite foldl_app. simpl. apply NoDup_set_and.
Qed.

Lemma find_mutual_files_cons (d : string) (dirs : list string)
    (glob_pattern : string) (grep : option (list string)) :
  find_mutual_files glob (d :: dirs) glob_pattern grep
  = let intersection :=
      foldl set_and (listing glob glob_pattern d)
            (listing glob glob_pattern <$> dirs) in
    merge_sort (≤)%string
      (if truthy grep then grep_filter (default [] grep) intersection
       else intersection).
Proof.
  assert (Hzip : zip_with relative_names
                   ((fun d => glob (d +:+ "/**/" +:+ glob_pattern)) <$> dirs)
                   dirs
                 = listing glob glob_pattern <$> dirs).
  { induction dirs as [|d' dirs IH]; csimpl; [done|]. by rewrite IH. }
  unfold find_mutual_files. csimpl. by rewrite Hzip.
Qed.

(** X1.  The result of [find_mutual_files] is sorted, for every list of
    directories, pattern and filter. *)
Lemma Sorted_find_mutual_files (dirs : list string) (glob_pattern : string)
    (grep : option (list string)) :
  Sorted (≤)%string (find_mutual_files glob dirs glob_pattern grep).
Proof.
  destruct dirs as [|d dirs]; [constructor|].
  rewrite find_mutual_files_cons. apply (Sorted_merge_sort _).
Qed.

Lemma elem_of_common (glob_pattern d : string) (dirs : list string)
    (x : string) :
  x ∈ foldl set_and (listing glob glob_pattern d)
            (listing glob glob_pattern <$> dirs)
  ↔ Forall (fun d => x ∈ listing glob glob_pattern d) (d :: dirs).
Proof. rewrite elem_of_foldl_set_and, Forall_cons, Forall_fmap. done. Qed.

(** X2.  Without a filter and with at least two directories, the result
    is duplicate-free and holds exactly the names listed under every
    directory. *)
Lemma find_mutual_files_unfiltered (d1 d2 : string) (dirs : list string)
    (glob_pattern : string) :
  let r := find_mutual_files glob (d1 :: d2 :: dirs) glob_pattern None in
  NoDup r
  ∧ ∀ x, x ∈ r ↔ Forall (fun d => x ∈ listing glob glob_pattern d)
                         (d1 :: d2 :: dirs).
Proof.
  intros r. subst r. rewrite find_mutual_files_cons.
  simpl truthy. cbv iota zeta. split.
  - rewrite merge_sort_Permutation.
    by apply NoDup_foldl_set_and.
  - intros x. rewrite merge_sort_Permutation. apply elem_of_common.
Qed.

(** X3.  With a filter, the result holds the common names that contain
    a pattern of the filter (a name may occur more than once). *)
Lemma find_mutual_files_filtered (d : string) (dirs : list string)
    (glob_pattern : string) (g0 : string) (grep : list string) (x : string) :
  x ∈ find_mutual_files glob (d :: dirs) glob_pattern (Some (g0 :: grep)) ↔
  Forall (fun d => x ∈ listing glob glob_pattern d) (d :: dirs)
  ∧ ∃ g, g ∈ g0 :: grep ∧ Str.contains g x = true.
Proof.
  rewrite find_mutual_files_cons. simpl truthy. cbv iota. cbv zeta.
  rewrite merge_sort_Permutation. unfold grep_filter. simpl default.
  rewrite list_elem_of_bind. split.
  - intros (g & Hx & Hg). apply list_elem_of_filter in Hx as [Hc Hx].
    apply elem_of_common in Hx. eauto.
  - intros [Hall (g & Hg & Hc)]. exists g. split; [|done].
    apply list_elem_of_filter. split; [done|]. by apply elem_of_common.
Qed.

End PathSetMatcherFacts.

(** C10.  With no directory at all, [find_mutual_files] returns the empty
    list, whatever the pattern, the filter and the file system. *)
Theorem find_mutual_files_no_dirs (glob : string -> list string)
    (glob_pattern : string) (grep : option (list string)) :
  find_mutual_files glob [] glob_pattern grep = [].
Proof. reflexivity. Qed.

(** C4.  A name that contains two patterns of the filter is appended once
    for each of them: the result of [find_mutual_files] then lists it
    twice, and is not duplicate-free. *)
Theorem find_mutual_files_filter_duplicates :
  find_mutual_files glob_two_dirs ["sim1"; "sim2"] "*Hits*.root"
    (Some ["ITS"; "TPC"])
  = ["o2sim_HitsITS_TPC.root"; "o2sim_HitsITS_TPC.root"]
  ∧ ¬ NoDup (find_mutual_files glob_two_dirs ["sim1"; "sim2"] "*Hits*.root"
               (Some ["ITS"; "TPC"])).
Proof.
  assert (Heq : find_mutual_files glob_two_dirs ["sim1"; "sim2"] "*Hits*.root"
                  (Some ["ITS"; "TPC"])
                = ["o2sim_HitsITS_TPC.root"; "o2sim_HitsITS_TPC.root"])
    by (vm_compute; reflexivity).
  split; [exact Heq|]. rewrite Heq. intros Hnd.
  apply NoDup_cons in Hnd as [Hnotin _]. apply Hnotin, list_elem_of_here.
Qed.

(** ** Reasoning about computations *)

Lemma bindM_Ok {A B} (m : M A) (k : A -> M B) (w w1 : World) (a : A) :
  m w = (Ok a, w1) → bindM m k w = k a w1.
Proof. intros Hm. unfold bindM. by rewrite Hm. Qed.

Lemma bindM_Ok_inv {A B} (m : M A) (k : A -> M B) (w w' : World) (b : B) :
  bindM m k w = (Ok b, w') →
  ∃ a w1, m w = (Ok a, w1) ∧ k a w1 = (Ok b, w').
Proof.
  unfold bindM. destruct (m w) as [[a|e] w1]; [eauto|]. discriminate.
Qed.

(** drops the first [n] steps of a run that ended without exception *)
Tactic Notation "skip_binds" integer(n) "in" hyp(H) :=
  do n (apply bindM_Ok_inv in H as (? & ? & _ & H)).

Lemma total_ret {A} (a : A) : total (ret a).
Proof. intros w. exists a, []. by rewrite app_nil_r. Qed.

Lemma total_emit (e : event) : total (emit e).
Proof. intros w. by exists tt, [e]. Qed.

Lemma total_ask {A} (q : World -> A) : total (ask q).
Proof. intros w. exists (q w), []. by rewrite app_nil_r. Qed.

Lemma total_bind {A B} (m : M A) (k : A -> M B) :
  total m → (∀ a, total (k a)) → total (bindM m k).
Proof.
  intros Hm Hk w. destruct (Hm w) as (a & ext1 & Ha).
  destruct (Hk a (w ++ ext1)) as (b & ext2 & Hb). exists b, (ext1 ++ ext2).
  by rewrite (bindM_Ok _ _ _ _ _ Ha), Hb, app_assoc.
Qed.

Lemma forM_cons {A S} (body : S -> A -> M S) (x : A) (l : list A) (acc : S) :
  forM body (x :: l) acc = bindM (body acc x) (forM body l).
Proof. reflexivity. Qed.

Lemma total_forM {A S} (body : S -> A -> M S) (l : list A) (acc : S) :
  (∀ acc x, total (body acc x)) → total (forM body l acc).
Proof.
  intros Hbody. revert acc. induction l as [|x l IH]; intros acc; simpl.
  - apply total_ret.
  - apply total_bind; [apply Hbody | apply IH].
Qed.

Lemma total_if {A} (b : bool) (m1 m2 : M A) :
  total m1 → total m2 → total (if b then m1 else m2).
Proof. by destruct b. Qed.

(** One step of a proof that a computation built from [ret], [emit],
    [ask], [bindM], [forM] and conditionals is total; [tac] closes the
    calls of other functions. *)
Ltac total_step tac :=
  lazymatch goal with
  | |- total (ret _) => apply total_ret
  | |- total (emit _) => apply total_emit
  | |- total (print _) => apply total_emit
  | |- total (makedirs _) => apply total_emit
  | |- total (ask _) => apply total_ask
  | |- total (bindM _ _) => apply total_bind; [|intros ?]
  | |- total (forM _ _ _) => apply total_forM; intros ? ?
  | |- total (if _ then _ else _) => apply total_if
  | |- total (match ?x with _ => _ end) => destruct x
  | |- _ => tac
  end.

Ltac solve_total tac := repeat total_step tac.

(** ** SeverityAggregator *)

Section SeverityAggregatorFacts.

Variable env : Env.

Lemma total_severity_step res r s : total (severity_step res r s).
Proof.
  unfold severity_step. destruct (res !! s) as [[|n names]|];
    solve_total fail.
Qed.

Lemma severity_step_value res r s w b w' :
  severity_step res r s w = (Ok b, w') →
  b = true ↔ r = true ∨ ∃ names, res !! s = Some names ∧ names ≠ [].
Proof.
  unfold severity_step. destruct (res !! s) as [[|n names]|] eqn:Hs.
  - intros [= <- _]. split; [auto|].
    intros [?|(names & [= <-] & ?)]; done.
  - intros (_ & w1 & _ & Hk)%bindM_Ok_inv.
    apply bindM_Ok_inv in Hk as (_ & w2 & _ & [= <- _]).
    split; [|done]. intros _. right. by exists (n :: names).
  - intros [= <- _]. split; [auto|]. intros [?|(names & ? & _)]; done.
Qed.

Lemma severity_loop_value res severity r w b w' :
  forM (severity_step res) severity r w = (Ok b, w') →
  b = true ↔ r = true ∨ flagged res severity.
Proof.
  revert r w. induction severity as [|s severity IH]; intros r w; simpl.
  - intros [= <- _]. unfold flagged. split; [auto|].
    intros [?|(s & ? & Hin & _)]; [done|]. by apply elem_of_nil in Hin.
  - intros (r1 & w1 & Hstep & Hrest)%bindM_Ok_inv.
    apply severity_step_value in Hstep. apply IH in Hrest.
    rewrite Hrest, Hstep. unfold flagged. split.
    + intros [[?|(names & ? & ?)]|(s' & names & ? & ?)]; [by left|..].
      * right. exists s, names. split; [apply list_elem_of_here|done].
      * right. exists s', names. split; [by apply list_elem_of_further|done].
    + intros [?|(s' & names & [->|?]%elem_of_cons & ?)]; [by left; left|..].
      * left. right. by exists names.
      * right. by exists s', names.
Qed.

Lemma total_has_severity filename severity :
  total (has_severity env filename severity).
Proof.
  unfold has_severity. apply total_bind; [apply total_ask|]. intros res.
  apply total_forM. intros. apply total_severity_step.
Qed.

End SeverityAggregatorFacts.

(** C5.  [has_severity] returns, and returns true if and only if one of
    the requested severities is present in [test_summary] with a
    non-empty list.  With the summary {"BAD": ["h1"]} it returns true for
    the severities {"BAD"} and false for {"GOOD"}. *)
Theorem has_severity_iff_flagged (env : Env) (filename : string)
    (severity : list string) (w : World) :
  (∃ b w', has_severity env filename severity w = (Ok b, w')
           ∧ (b = true ↔ flagged (test_summary env w filename) severity))
  ∧ (has_severity (with_test_summary env {[ "BAD" := ["h1"] ]})
                  filename ["BAD"] w).1 = Ok true
  ∧ (has_severity (with_test_summary env {[ "BAD" := ["h1"] ]})
                  filename ["GOOD"] w).1 = Ok false.
Proof.
  split; [|split; reflexivity].
  destruct (total_has_severity env filename severity w) as (b & ext & Hrun).
  exists b, (w ++ ext). split; [done|].
  unfold has_severity in Hrun.
  apply bindM_Ok_inv in Hrun as (res & w1 & [= <- <-] & Hloop).
  apply severity_loop_value in Hloop. rewrite Hloop.
  split; [intros [?|?]; done | auto].
Qed.

(** ** ComparisonRunner *)

Lemma ensure_dir_run (env : Env) (path : string) (w : World) :
  ensure_dir env path w = (Ok tt, ensured env path w).
Proof.
  unfold ensure_dir, ensured, bindM, ask.
  by destruct (path_exists env w path).
Qed.

Lemma rel_val_files_run (env : Env) (file1 file2 : string) (args : Args)
    (output_dir : string) (w : World) :
  let cmd := root_command env file1 file2 args in
  let w1 := ensured env output_dir w ++ [EPrint ("Running " +:+ cmd)] in
  rel_val_files env file1 file2 args output_dir w
  = (Ok 0, w1 ++ [EPopen cmd output_dir (child_status env w1 cmd output_dir)]).
Proof.
  unfold rel_val_files. rewrite (bindM_Ok _ _ _ _ _ (ensure_dir_run _ _ _)).
  reflexivity.
Qed.



(** ** [rel_val_ttree]: the paths given to the two chains *)

Lemma to_be_chained_grouped (dir1 dir2 : string) (files : list string)
    (cp : string) (cps : list string) :
  to_be_chained1 dir1 dir2 files (Some (cp :: cps))
  = (fun cp => PathList (join dir1 <$>
                 filter (fun hf => Str.contains cp hf = true) files))
      <$> cp :: cps
  ∧ to_be_chained2 dir1 dir2 files (Some (cp :: cps))
    = (fun cp => PathList (join dir2 <$>
                   filter (fun hf => Str.contains cp hf = true) files))
        <$> cp :: cps.
Proof. split; reflexivity. Qed.

Lemma to_be_chained_ungrouped (dir1 dir2 : string) (files : list string)
    (combine_patterns : option (list string)) :
  truthy combine_patterns = false →
  to_be_chained2 dir1 dir2 files combine_patterns
  = (fun hf => PathStr (join dir1 hf)) <$> files.
Proof. intros Hcp. unfold to_be_chained2. by rewrite Hcp. Qed.

(** C1.  Without [combine_patterns], [rel_val_ttree] builds the paths of
    the second chain from [dir1], not from [dir2]: for the directories
    [sim1] and [sim2] and the matched file [o2sim_Kine.root], the second
    chain is given the path of the file under [sim1] (which, being a
    single [str], is iterated character by character), and nothing under
    [sim2]. *)
Theorem rel_val_ttree_ungrouped_second_chain :
  to_be_chained2 "sim1" "sim2" ["o2sim_Kine.root"] None
  = [PathStr "sim1/o2sim_Kine.root"]
  ∧ to_be_chained2 "sim1" "sim2" ["o2sim_Kine.root"] None
    = to_be_chained1 "sim1" "sim2" ["o2sim_Kine.root"] None
  ∧ iter <$> to_be_chained2 "sim1" "sim2" ["o2sim_Kine.root"] None
    = [Str.chars "sim1/o2sim_Kine.root"]
  ∧ iter <$> to_be_chained2 "sim1" "sim2" ["o2sim_Kine.root"] None
    ≠ [["sim2/o2sim_Kine.root"]].
Proof. repeat split; [reflexivity..|]. vm_compute. discriminate. Qed.

(** ** Orchestrator: the entry point *)

(** A simulation directory is a directory with at least one entry that
    matches [pipeline*]. *)
Lemma is_sim_dir_true (env : Env) (w : World) (path : string) :
  is_sim_dir env w path = true ↔
  isdir env w path = true ∧ glob env w (path +:+ "/pipeline*") false ≠ [].
Proof.
  unfold is_sim_dir. destruct (isdir env w path); simpl.
  - case_bool_decide; split; try done. by intros [_ ?].
  - split; [done|]. by intros [? _].
Qed.

(** C7.  When the two inputs are neither two files nor two simulation
    directories, [rel_val] prints the error message and returns 1; the
    only effect is the message: no directory is made and nothing is
    written. *)
Theorem rel_val_invalid_input (env : Env) (args : Args) (w : World)
    (Hfiles : isfile env w (input args).1 && isfile env w (input args).2
              = false)
    (Hsim : is_sim_dir env w (input args).1 && is_sim_dir env w (input args).2
            = false) :
  ∃ code,
    rel_val env args w
    = (Ok (PyInt code),
       w ++ [EPrint "Please provide either 2 files or 2 simulation directories as input."])
    ∧ code ≠ 0.
Proof.
  exists 1. split; [|done].
  unfold rel_val, bindM, ask. rewrite Hfiles, Hsim. reflexivity.
Qed.

Lemma rel_val_invalid_input_witness :
  ∃ code,
    rel_val env_example args_mixed []
    = (Ok (PyInt code),
       [EPrint "Please provide either 2 files or 2 simulation directories as input."])
    ∧ code ≠ 0.
Proof.
  apply (rel_val_invalid_input env_example args_mixed []);
    vm_compute; reflexivity.
Defined.

(** ** ColumnarReducer *)

Section ColumnarReducerFacts.

Variable env : Env.
Variables chain1 chain2 : chain.
Variables output_filepath1 output_filepath2 : string.

Lemma fill_first_loop (bs acc_b : list string) (acc_h : list hist)
    (w : World) :
  let kept := filter (fills_first env chain1) bs in
  forM (fill_first env chain1 (Some output_filepath1)) bs (acc_b, acc_h) w
  = (Ok (acc_b ++ kept, acc_h ++ (template chain1 <$> kept)),
     w ++ (written_first chain1 output_filepath1 <$> kept)).
Proof.
  cbv zeta. revert acc_b acc_h w.
  induction bs as [|b bs IH]; intros acc_b acc_h w; simpl.
  - by rewrite !app_nil_r.
  - rewrite filter_cons. unfold fill_first at 1, bindM at 1.
    destruct (decide (fills_first env chain1 b)) as [Hb|Hb].
    + rewrite bool_decide_eq_false_2 by exact Hb. simpl.
      rewrite IH. csimpl. by rewrite <- !app_assoc.
    + apply dec_stable in Hb. rewrite bool_decide_eq_true_2 by exact Hb.
      simpl. by rewrite IH.
Qed.

Lemma fill_second_step (b : string) (w : World) :
  fill_second env chain2 (Some output_filepath2) tt (b, template chain1 b) w
  = (Ok tt, w ++ [written_second env chain2 output_filepath2 b]).
Proof.
  unfold fill_second, written_second, template, bindM, method, ret, emit.
  simpl. by destruct (bool_decide _).
Qed.

Lemma fill_second_loop (bs : list string) (w : World) :
  forM (fill_second env chain2 (Some output_filepath2))
       (zip bs (template chain1 <$> bs)) tt w
  = (Ok tt, w ++ (written_second env chain2 output_filepath2 <$> bs)).
Proof.
  revert w. induction bs as [|b bs IH]; intros w.
  - simpl. by rewrite app_nil_r.
  - rewrite !fmap_cons.
    change (zip (b :: bs) (template chain1 b :: (template chain1 <$> bs)))
      with ((b, template chain1 b) :: zip bs (template chain1 <$> bs)).
    rewrite forM_cons, (bindM_Ok _ _ _ _ _ (fill_second_step b w)), IH.
    by rewrite <- app_assoc.
Qed.

End ColumnarReducerFacts.

Lemma load_root_file_opened (env : Env) (path opt : string) (w : World) :
  tfile_open env w path opt = true →
  load_root_file env path opt w = (Ok (Some path), w).
Proof. intros Hopen. unfold load_root_file, bindM, ask. by rewrite Hopen. Qed.

Lemma make_generic_histograms_from_chain_run (env : Env)
    (filenames1 filenames2 : filenames)
    (output_filepath1 output_filepath2 treename : string) (w : World) :
  (∀ w path, tfile_open env w path "RECREATE" = true) →
  let chain1 := TChain treename (iter filenames1) in
  let chain2 := TChain treename (iter filenames2) in
  let kept := filter (fills_first env chain1)
                     (looped_branches env chain1 chain2) in
  make_generic_histograms_from_chain env filenames1 filenames2
    output_filepath1 output_filepath2 treename w
  = (Ok tt,
     w ++ schema_warning env chain1 chain2
       ++ (written_first chain1 output_filepath1 <$> kept)
       ++ (written_second env chain2 output_filepath2 <$> kept)).
Proof.
  intros Hopen chain1 chain2 kept.
  unfold make_generic_histograms_from_chain.
  fold chain1 chain2. cbv zeta.
  set (bs := looped_branches env chain1 chain2) in *.
  assert (Hbranches :
    (if bool_decide (branch_names env chain1 ≠ branch_names env chain2)
     then print "WARNING: Found different branches in input files";;
          ret (set_and (branch_names env chain1) (branch_names env chain2))
     else ret (branch_names env chain1)) w
    = (Ok bs, w ++ schema_warning env chain1 chain2)).
  { unfold bs, looped_branches, schema_warning.
    destruct (bool_decide _); [reflexivity|].
    unfold ret. by rewrite app_nil_r. }
  rewrite (bindM_Ok _ _ _ _ _ Hbranches).
  rewrite (bindM_Ok _ _ _ _ _ (load_root_file_opened _ _ _ _ (Hopen _ _))).
  rewrite (bindM_Ok _ _ _ _ _ (fill_first_loop _ _ _ _ _ _ _)).
  simpl app at 1 2.
  rewrite (bindM_Ok _ _ _ _ _ (load_root_file_opened _ _ _ _ (Hopen _ _))).
  rewrite (bindM_Ok _ _ _ _ _ (fill_second_loop _ _ _ _ _ _)).
  unfold method, bindM, ret. fold kept. by rewrite <- !app_assoc.
Qed.

(** C9, as stated, fails.  In [env_example] the first chain cannot fill
    [py] and the second cannot fill [pz].  The branch [py] is skipped, but
    nothing is printed for it; the branch [pz] is not skipped: its
    histogram is written to the first file and, empty, to the second. *)
Lemma fill_failure_neither_logged_nor_skipped :
  make_generic_histograms_from_chain env_example
    (PathList ["sim1/o2sim_HitsITS.root"])
    (PathList ["sim2/o2sim_HitsITS.root"])
    "out/file1.root" "out/file2.root" "o2sim" []
  = (Ok tt,
     [EHistWrite "out/file1.root"
        (TH1 "px" (Some (TChain "o2sim" ["sim1/o2sim_HitsITS.root"])));
      EHistWrite "out/file1.root"
        (TH1 "pz" (Some (TChain "o2sim" ["sim1/o2sim_HitsITS.root"])));
      EHistWrite "out/file2.root"
        (TH1 "px" (Some (TChain "o2sim" ["sim2/o2sim_HitsITS.root"])));
      EHistWrite "out/file2.root" (TH1 "pz" None)])
  ∧ Draw env_example (TChain "o2sim" ["sim1/o2sim_HitsITS.root"]) "py>>py"
    = -1
  ∧ Draw env_example (TChain "o2sim" ["sim2/o2sim_HitsITS.root"]) "pz>>+pz"
    = -1.
Proof. repeat split; vm_compute; reflexivity. Qed.

Lemma written_second_second_file (env : Env) (chain2 : chain)
    (output_filepath2 : string) (bs : list string) :
  written_second env chain2 output_filepath2 <$> bs
  = second_file output_filepath2 bs
      ((fun b =>
          if bool_decide (Draw env chain2 (b +:+ ">>+" +:+ h_name_of b) = -1)
          then None else Some chain2) <$> bs).
Proof.
  unfold second_file. induction bs as [|b bs IH]; csimpl; [done|].
  by rewrite IH.
Qed.

(** C9, amended.  When the two output files can be opened,
    [make_generic_histograms_from_chain] returns without an exception
    whatever fills fail.  A branch whose fill from the first chain fails is
    skipped, without a line being printed for it, and the remaining
    branches are still processed.  No artifact is one-sided: the two
    output files receive histograms of the same names for the same
    branches, in the same order, namely for the branches that the first
    chain could fill.  The only line that may be printed is the warning
    about different branches. *)
Theorem make_generic_histograms_skips_first_failures (env : Env)
    (filenames1 filenames2 : filenames)
    (output_filepath1 output_filepath2 treename : string) (w : World)
    (Hopen : ∀ w path, tfile_open env w path "RECREATE" = true) :
  let chain1 := TChain treename (iter filenames1) in
  let chain2 := TChain treename (iter filenames2) in
  let kept := filter (fills_first env chain1)
                     (looped_branches env chain1 chain2) in
  ∃ contents : list (option chain),
    length contents = length kept
    ∧ make_generic_histograms_from_chain env filenames1 filenames2
        output_filepath1 output_filepath2 treename w
      = (Ok tt,
         w ++ schema_warning env chain1 chain2
           ++ (written_first chain1 output_filepath1 <$> kept)
           ++ second_file output_filepath2 kept contents).
Proof.
  intros chain1 chain2 kept. eexists. split; [|].
  2:{ rewrite <- written_second_second_file.
      by apply make_generic_histograms_from_chain_run. }
  by rewrite length_fmap.
Qed.

Lemma make_generic_histograms_skips_first_failures_witness :
  ∃ contents : list (option chain),
    length contents = 2%nat
    ∧ make_generic_histograms_from_chain env_example
        (PathList ["sim1/o2sim_HitsITS.root"])
        (PathList ["sim2/o2sim_HitsITS.root"])
        "out/file1.root" "out/file2.root" "o2sim" []
      = (Ok tt,
         (written_first (TChain "o2sim" ["sim1/o2sim_HitsITS.root"])
                        "out/file1.root" <$> ["px"; "pz"])
         ++ second_file "out/file2.root" ["px"; "pz"] contents).
Proof.
  exact (make_generic_histograms_skips_first_failures env_example
           (PathList ["sim1/o2sim_HitsITS.root"])
           (PathList ["sim2/o2sim_HitsITS.root"])
           "out/file1.root" "out/file2.root" "o2sim" []
           (fun _ _ => eq_refl)).
Defined.

(** ** Orchestrator: the categories *)

Lemma dict_set_keys {V} (key : string) (value : V) (d : list (string * V)) :
  (dict_set key value d).*1
  = if bool_decide (key ∈ d.*1) then d.*1 else d.*1 ++ [key].
Proof.
  induction d as [|[k v] d IH]; csimpl.
  - done.
  - destruct (decide (k = key)) as [->|Hne].
    + rewrite bool_decide_eq_true_2 by done. csimpl.
      rewrite bool_decide_eq_true_2; [done|]. apply list_elem_of_here.
    + rewrite bool_decide_eq_false_2 by done. csimpl. rewrite IH.
      destruct (decide (key ∈ d.*1)) as [Hin|Hnotin].
      * rewrite (bool_decide_eq_true_2 _ Hin).
        rewrite bool_decide_eq_true_2; [done|].
        by apply list_elem_of_further.
      * rewrite (bool_decide_eq_false_2 _ Hnotin).
        rewrite bool_decide_eq_false_2; [done|].
        intros [?|?]%elem_of_cons; congruence.
Qed.

Section OrchestratorFacts.

Variable env : Env.

(** the output files can be opened, and no file is empty *)
Hypothesis Hopen : ∀ w path, tfile_open env w path "RECREATE" = true.
Hypothesis Hsize : ∀ w path, st_size env w path ≠ 0.

Lemma total_ensure_dir path : total (ensure_dir env path).
Proof. unfold ensure_dir. solve_total fail. Qed.

Lemma total_rel_val_files file1 file2 args output_dir :
  total (rel_val_files env file1 file2 args output_dir).
Proof.
  intros w. destruct (total_ensure_dir output_dir w) as ([] & ext & Hext).
  eexists _, _. rewrite rel_val_files_run.
  rewrite ensure_dir_run in Hext. injection Hext as ->.
  by rewrite <- !app_assoc.
Qed.

Lemma total_make_generic_histograms_from_chain fn1 fn2 out1 out2 treename :
  total (make_generic_histograms_from_chain env fn1 fn2 out1 out2 treename).
Proof.
  intros w. eexists _, _.
  by apply make_generic_histograms_from_chain_run.
Qed.

Ltac total_call :=
  idtac;
  lazymatch goal with
  | |- total (ensure_dir _ _) => apply total_ensure_dir
  | |- total (rel_val_files _ _ _ _ _) => apply total_rel_val_files
  | |- total (make_generic_histograms_from_chain _ _ _ _ _ _) =>
      apply total_make_generic_histograms_from_chain
  | |- total (has_severity _ _ _) => apply total_has_severity
  end.

Lemma total_rel_val_ttree dir1 dir2 files output_dir args treename cps :
  total (rel_val_ttree env dir1 dir2 files output_dir args treename cps).
Proof. unfold rel_val_ttree. solve_total total_call. Qed.

Lemma total_rel_val_histograms dir1 dir2 files output_dir args :
  total (rel_val_histograms env dir1 dir2 files output_dir args).
Proof. unfold rel_val_histograms. solve_total total_call. Qed.

Lemma total_add_to_summary paths key summary_dict :
  total (add_to_summary env paths key summary_dict).
Proof. unfold add_to_summary. solve_total total_call. Qed.

Lemma total_size_row threshold widths files f (sizes : list Z) :
  0 ∉ tail sizes → Forall fits sizes →
  total (size_row env threshold widths files (f, sizes)).
Proof.
  intros Hnz Hfits w. unfold size_row.
  unfold liftR, bindM at 1.
  rewrite (exceeding_difference_thresh_value sizes threshold Hnz Hfits).
  destruct (filter _ _); apply total_bind; intros; solve_total fail.
Qed.

Lemma total_size_rows threshold widths (rows : list (string * list Z)) files :
  Forall (fun r : string * list Z => (0 ∉ tail r.2) ∧ Forall fits r.2) rows →
  total (forM (size_row env threshold widths) rows files).
Proof.
  intros Hrows. revert files.
  induction Hrows as [|[f sizes] rows [Hnz Hfits] _ IH]; intros files.
  - apply total_ret.
  - rewrite forM_cons. apply total_bind; [by apply total_size_row | apply IH].
Qed.

Lemma total_file_sizes dirs threshold :
  total (file_sizes env dirs threshold).
Proof.
  unfold file_sizes. intros w.
  unfold bindM at 1, ask at 1. unfold bindM at 1, ask at 1.
  apply total_bind; [apply total_emit|]. intros _.
  apply total_bind; [|intros; apply total_ret].
  apply total_size_rows.
  apply Forall_fmap, Forall_true. intros f. simpl. split.
  - intros Hin.
    assert (Hin' : 0 ∈ (fun d => st_size env w (join d f)) <$> dirs).
    { destruct dirs; [done|]. by apply list_elem_of_further. }
    apply list_elem_of_fmap in Hin' as (d & Hz & _). by eapply Hsize.
  - apply Forall_fmap, Forall_true. intros d. simpl.
    apply off_t_fits, st_size_range.
Qed.

Ltac total_call ::=
  idtac;
  lazymatch goal with
  | |- total (ensure_dir _ _) => apply total_ensure_dir
  | |- total (rel_val_files _ _ _ _ _) => apply total_rel_val_files
  | |- total (make_generic_histograms_from_chain _ _ _ _ _ _) =>
      apply total_make_generic_histograms_from_chain
  | |- total (has_severity _ _ _) => apply total_has_severity
  | |- total (rel_val_ttree _ _ _ _ _ _ _ _) => apply total_rel_val_ttree
  | |- total (rel_val_histograms _ _ _ _ _ _) =>
      apply total_rel_val_histograms
  | |- total (add_to_summary _ _ _ _) => apply total_add_to_summary
  | |- total (file_sizes _ _ _) => apply total_file_sizes
  end.


















End OrchestratorFacts.





(** Without the output directory the run ends at the first file that it
    writes there. *)
Example rel_val_sim_dirs_no_output_dir :
  (rel_val_sim_dirs env_example args_example []).1 = Raise FileNotFoundError.
Proof. vm_compute. reflexivity. Qed.

(** With only the hits enabled, the run in [env_example] ends with the
    summary of the single category, under the key [hist]. *)
Example rel_val_sim_dirs_only_hits :
  (rel_val env_example args_hits []).1 = Ok PyNone
  ∧ last (rel_val env_example args_hits []).2
    = Some (EJsonDump "out/SummaryToBeChecked.json"
              (JSummary [("hist", ["out/hits/HitsITS_dir/Summary.json"])])).
Proof. split; vm_compute; reflexivity. Qed.

(** * Further properties *)

(** ** PathSetMatcher: relative names *)

Lemma startswith_lstrip (c : Ascii.ascii) (s : string) :
  Str.startswith c (Str.lstrip c s) = false.
Proof.
  induction s as [|a s IH]; simpl; [done|].
  destruct (Ascii.eqb a c) eqn:Hac; [done|]. simpl. exact Hac.
Qed.

Lemma prefix_app (d s : string) : String.prefix d (d +:+ s) = true.
Proof.
  induction d as [|a d IH]; simpl; [by destruct s|].
  destruct (ascii_dec a a); [exact IH | done].
Qed.

Lemma join_under (d x : string) :
  Str.startswith "/"%char x = false → String.prefix d (join d x) = true.
Proof.
  intros Hx. unfold join. rewrite Hx.
  destruct (_ || _); apply prefix_app.
Qed.

Lemma find_mutual_files_first_listing (glob : string -> list string)
    (d : string) (dirs : list string) (glob_pattern : string)
    (grep : option (list string)) (x : string) :
  x ∈ find_mutual_files glob (d :: dirs) glob_pattern grep →
  x ∈ listing glob glob_pattern d.
Proof.
  rewrite find_mutual_files_cons. cbv zeta. rewrite merge_sort_Permutation.
  destruct (truthy grep).
  - unfold grep_filter. intros (g & Hx & _)%list_elem_of_bind.
    apply list_elem_of_filter in Hx as [_ Hx].
    apply elem_of_common, Forall_cons in Hx as [Hx _]. exact Hx.
  - intros Hx. apply elem_of_common, Forall_cons in Hx as [Hx _]. exact Hx.
Qed.

(** X5.  Every name that [find_mutual_files] returns is relative: it does
    not start with a slash, so that [join d name] lies under [d] for
    every directory [d] instead of discarding it. *)
Theorem find_mutual_files_relative (glob : string -> list string)
    (dirs : list string) (glob_pattern : string)
    (grep : option (list string)) :
  Forall (fun x => Str.startswith "/"%char x = false
                   ∧ ∀ d, String.prefix d (join d x) = true)
         (find_mutual_files glob dirs glob_pattern grep).
Proof.
  apply Forall_forall. intros x Hx.
  assert (Hrel : Str.startswith "/"%char x = false).
  { destruct dirs as [|d dirs]; [by apply elem_of_nil in Hx|].
    apply find_mutual_files_first_listing in Hx.
    unfold listing, relative_names in Hx.
    apply list_elem_of_fmap in Hx as (p & -> & _). apply startswith_lstrip. }
  split; [exact Hrel|]. intros d. by apply join_under.
Qed.

Lemma foldl_set_and_canonical (f0 f : list string) (rest : list (list string)) :
  foldl set_and f0 (f :: rest)
  = elements (list_to_set (foldl set_and f0 (f :: rest)) : gset string).
Proof.
  assert (Hne : f :: rest ≠ []) by done. revert Hne.
  generalize (f :: rest). clear f rest. intros fs.
  destruct fs as [|b fs _] using rev_ind; [done|]. intros _.
  rewrite foldl_app. simpl. unfold set_and at 1 3.
  by rewrite list_to_set_elements_L.
Qed.

Lemma common_names_permutation (glob : string -> list string)
    (glob_pattern d d' e e' : string) (dirs es : list string) :
  d :: d' :: dirs ≡ₚ e :: e' :: es →
  foldl set_and (listing glob glob_pattern d)
        (listing glob glob_pattern <$> d' :: dirs)
  = foldl set_and (listing glob glob_pattern e)
          (listing glob glob_pattern <$> e' :: es).
Proof.
  intros Hperm. rewrite !fmap_cons.
  rewrite foldl_set_and_canonical,
    (foldl_set_and_canonical (listing glob glob_pattern e)).
  f_equal. apply set_eq. intros x.
  rewrite !elem_of_list_to_set, <- !fmap_cons, !elem_of_common.
  by rewrite Hperm.
Qed.

(** X4.  The result of [find_mutual_files] does not depend on the order
    in which the directories are given, with or without a filter. *)
Theorem find_mutual_files_permutation (glob : string -> list string)
    (dirs dirs' : list string) (glob_pattern : string)
    (grep : option (list string)) (Hperm : dirs ≡ₚ dirs') :
  find_mutual_files glob dirs glob_pattern grep
  = find_mutual_files glob dirs' glob_pattern grep.
Proof.
  destruct dirs as [|d [|d' dirs]].
  - by apply Permutation_nil_l in Hperm as ->.
  - by apply Permutation_singleton_l in Hperm as ->.
  - destruct dirs' as [|e [|e' es]].
    + by apply Permutation_nil_r in Hperm.
    + by apply Permutation_singleton_r in Hperm.
    + rewrite !find_mutual_files_cons. cbv zeta.
      by rewrite (common_names_permutation _ _ _ _ _ _ _ _ Hperm).
Qed.

Lemma find_mutual_files_permutation_witness :
  find_mutual_files glob_two_dirs ["sim1"; "sim2"] "*Hits*.root"
    (Some ["ITS"])
  = find_mutual_files glob_two_dirs ["sim2"; "sim1"] "*Hits*.root"
      (Some ["ITS"]).
Proof.
  apply (find_mutual_files_permutation glob_two_dirs ["sim1"; "sim2"]
           ["sim2"; "sim1"]).
  apply perm_swap.
Defined.

(** ** PathSetMatcher: joining the relative names back *)

Lemma drop_app (d s : string) : Str.drop (String.length d) (d +:+ s) = s.
Proof. induction d as [|a d IH]; simpl; [by destruct s | exact IH]. Qed.

Lemma lstrip_id (c : Ascii.ascii) (s : string) :
  Str.startswith c s = false → Str.lstrip c s = s.
Proof. destruct s as [|a s]; simpl; [done|]. by intros ->. Qed.

Lemma relative_then_join (d r : string) :
  d ≠ "" → Str.endswith "/"%char d = false →
  Str.startswith "/"%char r = false →
  join d (Str.lstrip "/"%char (Str.drop (String.length d) (d +:+ "/" +:+ r)))
  = d +:+ "/" +:+ r.
Proof.
  intros Hd Hend Hr. rewrite drop_app.
  change ("/" +:+ r) with (String "/"%char r) at 1. simpl Str.lstrip.
  rewrite (lstrip_id _ _ Hr). unfold join. rewrite Hr, Hend.
  by rewrite bool_decide_eq_false_2.
Qed.

(** X6.  When the directory name is not empty and does not end with a
    slash, and [glob] answers with paths of the form [d/r], joining the
    relative names of the listing back to [d] gives the paths that
    [glob] found, up to their order. *)
Theorem listing_join_round_trip (glob : string -> list string)
    (glob_pattern d : string)
    (Hd : d ≠ "") (Hend : Str.endswith "/"%char d = false)
    (Hglob : Forall (fun p => ∃ r, p = d +:+ "/" +:+ r
                                   ∧ Str.startswith "/"%char r = false)
                    (glob (d +:+ "/**/" +:+ glob_pattern))) :
  join d <$> listing glob glob_pattern d
  ≡ₚ glob (d +:+ "/**/" +:+ glob_pattern).
Proof.
  unfold listing, relative_names. rewrite <- list_fmap_compose.
  set (found := glob (d +:+ "/**/" +:+ glob_pattern)) in *.
  rewrite <- (merge_sort_Permutation (≤)%string found) in Hglob.
  rewrite <- (merge_sort_Permutation (≤)%string found) at 2.
  set (sorted := merge_sort (≤)%string found) in *.
  rewrite <- (list_fmap_id sorted) at 2.
  assert (Heq : ∀ f g : string -> string,
            Forall (fun p => f p = g p) sorted → f <$> sorted = g <$> sorted)
    by (intros f g; apply Forall_fmap_ext).
  rewrite (Heq _ id); [done|].
  eapply Forall_impl; [exact Hglob|]. intros p (r & -> & Hr). simpl.
  by apply relative_then_join.
Qed.

Lemma listing_join_round_trip_witness :
  join "sim1" <$> listing glob_two_dirs "*Hits*.root" "sim1"
  ≡ₚ glob_two_dirs "sim1/**/*Hits*.root".
Proof.
  apply (listing_join_round_trip glob_two_dirs "*Hits*.root" "sim1").
  - discriminate.
  - reflexivity.
  - repeat constructor. exists "o2sim_HitsITS_TPC.root". split; reflexivity.
Defined.

(** ** SizeAuditor: outcomes of the comparison of sizes *)

Lemma NoDup_combinations2 (n : nat) : NoDup (combinations2 n).
Proof.
  unfold combinations2. apply NoDup_bind.
  - intros i1 i1' [i j] _ _ (? & [= -> ->] & _)%list_elem_of_fmap
      (? & [= -> _] & _)%list_elem_of_fmap. done.
  - intros i1 _. apply NoDup_fmap_2; [|apply NoDup_seq].
    by intros ? ? [= ->].
  - apply NoDup_seq.
Qed.

(** X7.  [exceeding_difference_thresh] raises nothing but
    [ZeroDivisionError] and [OverflowError]; it raises
    [ZeroDivisionError] only when a size at a position other than the
    first is zero, and [OverflowError] only when a size is out of range.
    With sizes in range it raises exactly when a size at a position
    other than the first is zero.  When it returns, no pair is reported
    twice, and every reported pair (i, j) has i < j < len(sizes). *)
Theorem exceeding_difference_thresh_outcome (sizes : list Z) (threshold : Q) :
  (∀ e, exceeding_difference_thresh sizes threshold = Raise e →
        (e = ZeroDivisionError ∧ 0 ∈ tail sizes)
        ∨ (e = OverflowError ∧ ¬ Forall fits sizes))
  ∧ (Forall fits sizes →
     (exceeding_difference_thresh sizes threshold = Raise ZeroDivisionError
      ↔ 0 ∈ tail sizes))
  ∧ (∀ diff_indices,
       exceeding_difference_thresh sizes threshold = Ok diff_indices →
       NoDup diff_indices
       ∧ ∀ i j, (i, j) ∈ diff_indices → (i < j < length sizes)%nat).
Proof.
  split; [|split].
  - intros e Hrun.
    pose proof Hrun as (i & j & Hij & Hq)%exceeding_difference_thresh_Raise.
    destruct (quotient_cases sizes (i, j)) as [[Hz Hq']|[[_ Hq']|[_ Hq']]];
      rewrite Hq' in Hq; [| |discriminate]; injection Hq as <-.
    + left. split; [done|]. simpl in Hz. rewrite <- Hz.
      by eapply denominators_in_tail.
    + right. split; [done|]. intros Hfits.
      by destruct (in_range_raises _ _ _ Hfits Hrun).
  - intros Hfits.
    destruct (exceeding_difference_thresh_cases sizes threshold Hfits)
      as [[Hz ->]|[Hnz ->]]; [done|]. split; [discriminate|done].
  - intros l ->%exceeding_difference_thresh_Ok. split.
    + apply NoDup_filter, NoDup_combinations2.
    + intros i j [_ Hin]%list_elem_of_filter.
      by apply elem_of_combinations2.
Qed.

(** A size beyond the range of a double makes the division raise
    [OverflowError], before a later zero divisor is met. *)
Example exceeding_difference_thresh_overflow :
  exceeding_difference_thresh [2 ^ 1024; 1] (1 # 2) = Raise OverflowError
  ∧ exceeding_difference_thresh [10 ^ 400; 1; 0] (1 # 2)
    = Raise OverflowError
  ∧ exceeding_difference_thresh [2 ^ 1024 - 2 ^ 970 - 1; 1; 2] (1 # 2)
    = Ok [(0, 1); (0, 2)]%nat.
Proof. split; [|split]; vm_compute; reflexivity. Qed.

(** X8.  With fewer than two sizes there is no pair to compare:
    [exceeding_difference_thresh] returns the empty list, also when the
    only size is zero. *)
Theorem exceeding_difference_thresh_short (sizes : list Z) (threshold : Q)
    (Hshort : (length sizes ≤ 1)%nat) :
  exceeding_difference_thresh sizes threshold = Ok [].
Proof.
  destruct sizes as [|s [|s' sizes]]; [reflexivity..|]. simpl in Hshort. lia.
Qed.

Lemma exceeding_difference_thresh_short_witness :
  exceeding_difference_thresh [0] double_0_1 = Ok [].
Proof.
  apply (exceeding_difference_thresh_short [0] double_0_1). simpl. lia.
Defined.

Lemma filter_none {A} (P : A -> Prop) `{∀ x, Decision (P x)} (l : list A) :
  Forall (fun x => ¬ P x) l → filter P l = [].
Proof.
  intros Hl. destruct (filter P l) as [|x l'] eqn:Hf; [done|].
  assert (Hx : x ∈ filter P l) by (rewrite Hf; apply list_elem_of_here).
  apply list_elem_of_filter in Hx as [HP Hx].
  by destruct (proj1 (Forall_forall _ _) Hl x Hx).
Qed.

Lemma rel_diff_equal (sizes : list Z) (c : Z) (p : nat * nat) :
  sizes !!! p.1 = c → sizes !!! p.2 = c → rel_diff sizes p = 0%Q.
Proof. intros H1 H2. unfold rel_diff. by rewrite H1, H2, Z.sub_diag. Qed.

Lemma quotient_equal (sizes : list Z) (c : Z) (p : nat * nat) :
  c ≠ 0 → sizes !!! p.1 = c → sizes !!! p.2 = c →
  quotient sizes p = Ok (rel_diff sizes p).
Proof.
  intros Hc H1 H2. unfold quotient, rel_diff. rewrite H1, H2, Z.sub_diag.
  unfold true_div. by rewrite decide_False.
Qed.

(** X9.  Sizes that are all equal and not zero are never flagged, for any
    threshold that is not negative. *)
Theorem exceeding_difference_thresh_equal (sizes : list Z) (c : Z)
    (threshold : Q)
    (Hc : c ≠ 0) (Hall : Forall (fun s => s = c) sizes)
    (Hthr : Qle 0 threshold) :
  exceeding_difference_thresh sizes threshold = Ok [].
Proof.
  assert (Hlook : ∀ k, (k < length sizes)%nat → sizes !!! k = c).
  { intros k Hk. eapply (proj1 (Forall_forall _ _) Hall).
    by apply list_elem_of_lookup_total_2. }
  unfold exceeding_difference_thresh.
  rewrite (collect_pairs _ _ _ []).
  - f_equal. apply filter_none. apply Forall_forall. intros [i j] Hin Hgt.
    apply elem_of_combinations2 in Hin. apply Qgtb_true in Hgt.
    rewrite (rel_diff_equal sizes c (i, j)) in Hgt
      by (simpl; apply Hlook; lia).
    by apply Qlt_not_le in Hgt.
  - apply Forall_forall. intros [i j] Hin.
    apply elem_of_combinations2 in Hin.
    apply (quotient_equal sizes c); [done|simpl; apply Hlook; lia..].
Qed.

Lemma exceeding_difference_thresh_equal_witness :
  exceeding_difference_thresh [300; 300; 300] double_0_1 = Ok [].
Proof.
  apply (exceeding_difference_thresh_equal [300; 300; 300] 300 double_0_1).
  - lia.
  - repeat constructor.
  - discriminate.
Defined.

(** X10.  Raising the threshold can only remove flagged pairs: every pair
    flagged at a threshold is flagged at every smaller one. *)
Theorem exceeding_difference_thresh_monotone (sizes : list Z)
    (threshold threshold' : Q) (l l' : list (nat * nat))
    (Hle : Qle threshold threshold')
    (Hrun : exceeding_difference_thresh sizes threshold = Ok l)
    (Hrun' : exceeding_difference_thresh sizes threshold' = Ok l') :
  l' ⊆ l.
Proof.
  apply exceeding_difference_thresh_Ok in Hrun as ->.
  apply exceeding_difference_thresh_Ok in Hrun' as ->.
  intros p [Hgt Hin]%list_elem_of_filter. apply list_elem_of_filter.
  split; [|done]. apply Qgtb_true. apply Qgtb_true in Hgt.
  by eapply Qle_lt_trans.
Qed.

Lemma exceeding_difference_thresh_monotone_witness :
  exceeding_difference_thresh [100; 105; 300] double_0_1
  = Ok [(0, 2); (1, 2)]%nat
  ∧ exceeding_difference_thresh [100; 105; 300] (21 # 32) = Ok [(0, 2)%nat]
  ∧ [(0, 2)%nat] ⊆ [(0, 2); (1, 2)]%nat.
Proof.
  split; [reflexivity|]. split; [reflexivity|].
  apply (exceeding_difference_thresh_monotone [100; 105; 300]
           double_0_1 (21 # 32)); [discriminate | reflexivity..].
Defined.

(** ** SizeAuditor: the report of [file_sizes] *)

Lemma dict_set_elem_of {V} (key : string) (value : V) (d : list (string * V))
    (k : string) (v : V) :
  (k, v) ∈ dict_set key value d → (k, v) = (key, value) ∨ (k, v) ∈ d.
Proof.
  induction d as [|[k0 v0] d IH]; simpl.
  - intros ->%list_elem_of_singleton. by left.
  - case_bool_decide as Hk; subst.
    + intros [->|Hin]%elem_of_cons; [by left|].
      right. by apply list_elem_of_further.
    + intros [->|Hin]%elem_of_cons; [right; apply list_elem_of_here|].
      destruct (IH Hin) as [->|?]; [by left|].
      right. by apply list_elem_of_further.
Qed.

Lemma dict_set_elem_of_key {V} (key : string) (value : V)
    (d : list (string * V)) :
  (key, value) ∈ dict_set key value d.
Proof.
  induction d as [|[k0 v0] d IH]; simpl; [apply list_elem_of_here|].
  case_bool_decide as Hk; subst; [apply list_elem_of_here|].
  by apply list_elem_of_further.
Qed.

Lemma dict_set_elem_of_other {V} (key : string) (value : V)
    (d : list (string * V)) (k : string) (v : V) :
  k ≠ key → (k, v) ∈ d → (k, v) ∈ dict_set key value d.
Proof.
  intros Hne. induction d as [|[k0 v0] d IH]; simpl.
  - by intros ?%elem_of_nil.
  - intros [[= <- <-]|Hin]%elem_of_cons.
    + rewrite bool_decide_eq_false_2 by done. apply list_elem_of_here.
    + case_bool_decide; subst; apply list_elem_of_further; auto.
Qed.

(** one row: a raised exception leaves the world as it is; otherwise one
    line is printed and the row is recorded when a pair was reported *)
Lemma size_row_run (env : Env) (threshold : Q) (widths : list nat)
    (files : list (string * list Z)) (f : string) (sizes : list Z)
    (w : World) :
  ∃ line,
    size_row env threshold widths files (f, sizes) w
    = match exceeding_difference_thresh sizes threshold with
      | Raise e => (Raise e, w)
      | Ok [] => (Ok files, w ++ [EPrint line])
      | Ok (_ :: _) => (Ok (dict_set f sizes files), w ++ [EPrint line])
      end.
Proof.
  unfold size_row, liftR, bindM at 1.
  destruct (exceeding_difference_thresh sizes threshold) as [[|p ps]|e];
    [eexists; reflexivity.. | by exists ""].
Qed.

(** the loop over the rows [(f, sizes_of f)] for the names [names] *)
Lemma size_rows_run (env : Env) (threshold : Q) (widths : list nat)
    (sizes_of : string -> list Z) (names : list string)
    (files : list (string * list Z)) (w w' : World)
    (r : result (list (string * list Z))) :
  (∀ f, Forall fits (sizes_of f)) →
  (∀ f s, (f, s) ∈ files → s = sizes_of f) →
  forM (size_row env threshold widths)
       ((fun f => (f, sizes_of f)) <$> names) files w = (r, w') →
  ∃ prints,
    w' = w ++ prints ∧ Forall is_print prints
    ∧ match r with
      | Raise e =>
          e = ZeroDivisionError
          ∧ Exists (fun f => 0 ∈ tail (sizes_of f)) names
      | Ok files' =>
          length prints = length names
          ∧ Forall (fun f => 0 ∉ tail (sizes_of f)) names
          ∧ ∀ f s, (f, s) ∈ files' ↔
                   (f, s) ∈ files
                   ∨ (f ∈ names ∧ s = sizes_of f
                      ∧ exceeds_somewhere s threshold)
      end.
Proof.
  intros Hfits.
  revert files w. induction names as [|f names IH]; intros files w Hfun.
  - intros [= <- <-]. exists []. rewrite app_nil_r.
    repeat split; [constructor..| |].
    + by left.
    + intros [?|(Hin & _)]; [done|]. by apply elem_of_nil in Hin.
  - rewrite fmap_cons, forM_cons. unfold bindM at 1.
    destruct (size_row_run env threshold widths files f (sizes_of f) w)
      as (line & ->).
    destruct (exceeding_difference_thresh_cases (sizes_of f) threshold
                (Hfits f))
      as [[Hz ->]|[Hnz Hval]].
    { intros [= <- <-]. exists []. rewrite app_nil_r.
      repeat split; [constructor|]. by left. }
    rewrite Hval. cbv beta iota.
    set (pairs := filter _ _) in *.
    assert (Hcont : ∀ files1,
      (∀ f' s, (f', s) ∈ files1 → s = sizes_of f') →
      (∀ f' s, (f', s) ∈ files1 ↔
               (f', s) ∈ files
               ∨ (f' = f ∧ s = sizes_of f ∧ exceeds_somewhere s threshold)) →
      forM (size_row env threshold widths)
           ((fun f => (f, sizes_of f)) <$> names) files1
           (w ++ [EPrint line]) = (r, w') →
      ∃ prints,
        w' = w ++ prints ∧ Forall is_print prints
        ∧ match r with
          | Raise e =>
              e = ZeroDivisionError
              ∧ Exists (fun f => 0 ∈ tail (sizes_of f)) (f :: names)
          | Ok files' =>
              length prints = length (f :: names)
              ∧ Forall (fun f => 0 ∉ tail (sizes_of f)) (f :: names)
              ∧ ∀ f' s, (f', s) ∈ files' ↔
                        (f', s) ∈ files
                        ∨ (f' ∈ f :: names ∧ s = sizes_of f'
                           ∧ exceeds_somewhere s threshold)
          end).
    { intros files1 Hfun1 Hfiles1 Hrest.
      apply (IH _ _ Hfun1) in Hrest as (prints & -> & Hprints & Hr).
      exists (EPrint line :: prints). rewrite <- app_assoc.
      split; [done|]. split; [by constructor|].
      destruct r as [files'|e].
      - destruct Hr as (Hlen & Hall & Hfiles'). split; [simpl; lia|].
        split; [by constructor|]. intros f' s.
        rewrite Hfiles', Hfiles1, elem_of_cons. split.
        + intros [[?|(-> & -> & ?)]|(? & ? & ?)]; auto.
        + intros [?|([->|?] & -> & ?)]; auto.
      - destruct Hr as [-> Hex]. split; [done|]. by right. }
    destruct pairs as [|p ps] eqn:Hpairs.
    + apply Hcont; [done|]. intros f' s. split; [by left|].
      intros [?|(_ & -> & (p & ps & Habs))]; [done|]. congruence.
    + apply Hcont.
      * intros f' s [[= -> ->]|Hin]%dict_set_elem_of; [done|]. by apply Hfun.
      * intros f' s. split.
        -- intros [[= -> ->]|Hin]%dict_set_elem_of; [|by left].
           right. repeat split. by exists p, ps.
        -- intros [Hin|(-> & -> & _)]; [|apply dict_set_elem_of_key].
           destruct (decide (f' = f)) as [->|Hne].
           ++ rewrite (Hfun _ _ Hin). apply dict_set_elem_of_key.
           ++ by apply dict_set_elem_of_other.
Qed.

Lemma file_sizes_unfold (env : Env) (dirs : list string) (threshold : Q)
    (w : World) :
  ∃ widths top_row,
    file_sizes env dirs threshold w
    = match forM (size_row env threshold widths)
                 ((fun f => (f, sizes_under env w dirs f))
                    <$> find_mutual_files (fun p => glob env w p true)
                          dirs "*.root" None)
                 [] (w ++ [EPrint top_row]) with
      | (Ok files, w') => (Ok (JFileSizes dirs files threshold), w')
      | (Raise e, w') => (Raise e, w')
      end.
Proof.
  unfold file_sizes, sizes_under, bindM, ask, print, emit, ret.
  cbv beta iota zeta. eexists _, _. reflexivity.
Qed.

Lemma file_sizes_outcome (env : Env) (dirs : list string) (threshold : Q)
    (w w' : World) (r : result json_doc) :
  let names :=
    find_mutual_files (fun p => glob env w p true) dirs "*.root" None in
  file_sizes env dirs threshold w = (r, w') →
  ∃ prints,
    w' = w ++ prints ∧ Forall is_print prints
    ∧ match r with
      | Raise e =>
          e = ZeroDivisionError
          ∧ Exists (fun f => 0 ∈ tail (sizes_under env w dirs f)) names
      | Ok doc =>
          length prints = S (length names)
          ∧ Forall (fun f => 0 ∉ tail (sizes_under env w dirs f)) names
          ∧ ∃ files,
              doc = JFileSizes dirs files threshold
              ∧ ∀ f s, (f, s) ∈ files ↔
                       f ∈ names ∧ s = sizes_under env w dirs f
                       ∧ exceeds_somewhere s threshold
      end.
Proof.
  intros names. destruct (file_sizes_unfold env dirs threshold w)
    as (widths & top_row & ->). fold names.
  destruct (forM _ _ _ _) as [r1 w1] eqn:Hloop.
  apply size_rows_run in Hloop as (prints & -> & Hprints & Hr1);
    [|intros f; apply Forall_fmap, Forall_true; intros d; simpl;
      apply off_t_fits, st_size_range
     |by intros f s ?%elem_of_nil].
  intros Hrun. exists (EPrint top_row :: prints).
  destruct r1 as [files|e]; injection Hrun as <- <-;
    (split; [by rewrite <- app_assoc|]); (split; [by constructor|]).
  - destruct Hr1 as (Hlen & Hall & Hfiles). split; [simpl; lia|].
    split; [done|]. exists files. split; [done|]. intros f s.
    rewrite Hfiles. split; [|auto]. intros [?%elem_of_nil|?]; done.
  - done.
Qed.

(** X11.  When [file_sizes] returns, it has only printed (the header and
    one line per common file), and its report holds the given
    directories, the given threshold, and exactly the common files for
    which the comparison of their sizes reports a pair, each with its
    sizes under the directories. *)
Theorem file_sizes_report (env : Env) (dirs : list string) (threshold : Q)
    (w w' : World) (doc : json_doc)
    (Hrun : file_sizes env dirs threshold w = (Ok doc, w')) :
  let names :=
    find_mutual_files (fun p => glob env w p true) dirs "*.root" None in
  ∃ files prints,
    doc = JFileSizes dirs files threshold
    ∧ w' = w ++ prints ∧ Forall is_print prints
    ∧ length prints = S (length names)
    ∧ ∀ f s, (f, s) ∈ files ↔
             f ∈ names ∧ s = sizes_under env w dirs f
             ∧ exceeds_somewhere s threshold.
Proof.
  intros names.
  apply file_sizes_outcome in Hrun
    as (prints & -> & Hprints & Hlen & _ & files & -> & Hfiles).
  by exists files, prints.
Qed.

Lemma file_sizes_report_witness :
  ∃ doc w',
    file_sizes env_example ["sim1"; "sim2"] (1 # 2) [] = (Ok doc, w')
    ∧ ∃ files prints,
        doc = JFileSizes ["sim1"; "sim2"] files (1 # 2)
        ∧ w' = [] ++ prints ∧ Forall is_print prints
        ∧ length prints = 2%nat
        ∧ ∀ f s, (f, s) ∈ files ↔
                 f ∈ ["o2sim_HitsITS.root"]
                 ∧ s = sizes_under env_example [] ["sim1"; "sim2"] f
                 ∧ exceeds_somewhere s (1 # 2).
Proof.
  exists (JFileSizes ["sim1"; "sim2"]
            [("o2sim_HitsITS.root", [100; 300])] (1 # 2)),
         (file_sizes env_example ["sim1"; "sim2"] (1 # 2) []).2.
  assert (Hrun : file_sizes env_example ["sim1"; "sim2"] (1 # 2) []
                 = (Ok (JFileSizes ["sim1"; "sim2"]
                          [("o2sim_HitsITS.root", [100; 300])] (1 # 2)),
                    (file_sizes env_example ["sim1"; "sim2"] (1 # 2) []).2))
    by (vm_compute; reflexivity).
  split; [exact Hrun|].
  exact (file_sizes_report env_example ["sim1"; "sim2"] (1 # 2) [] _ _ Hrun).
Defined.

(** X12.  When a file common to the two directories is empty under the
    second one, [rel_val_sim_dirs] ends with [ZeroDivisionError] in the
    size audit: it has only printed, [file_sizes.json] is not written,
    no directory is made and no category is run. *)
Theorem rel_val_sim_dirs_empty_file (env : Env) (args : Args) (w : World)
    (f : string)
    (Hf : f ∈ find_mutual_files (fun p => glob env w p true)
              [(input args).1; (input args).2] "*.root" None)
    (Hz : st_size env w (join (input args).2 f) = 0) :
  ∃ prints,
    rel_val_sim_dirs env args w = (Raise ZeroDivisionError, w ++ prints)
    ∧ Forall is_print prints.
Proof.
  unfold rel_val_sim_dirs. unfold bindM at 1.
  destruct (file_sizes env _ (1 # 2) w) as [r w'] eqn:Hrun.
  apply file_sizes_outcome in Hrun as (prints & -> & Hprints & Hr).
  destruct r as [doc|e].
  - destruct Hr as (_ & Hall & _). exfalso.
    apply (proj1 (Forall_forall _ _) Hall f Hf). simpl.
    rewrite Hz. apply list_elem_of_here.
  - destruct Hr as [-> _]. by exists prints.
Qed.

Lemma rel_val_sim_dirs_empty_file_witness :
  ∃ prints,
    rel_val_sim_dirs env_empty_file args_example []
    = (Raise ZeroDivisionError, [] ++ prints)
    ∧ Forall is_print prints.
Proof.
  apply (rel_val_sim_dirs_empty_file env_empty_file args_example []
           "o2sim_HitsITS.root").
  - vm_compute. apply list_elem_of_here.
  - reflexivity.
Defined.

(** ** Orchestrator: the two modes of [rel_val] *)



(** X14.  With two simulation directories as inputs, [rel_val] makes sure
    that the output directory exists and runs [rel_val_sim_dirs]; when it
    returns, its value is [None], never a number, whatever the verdicts
    of the comparisons are. *)
Theorem rel_val_two_sim_dirs (env : Env) (args : Args) (w w' : World)
    (v : pyval)
    (Hsim : is_sim_dir env w (input args).1 && is_sim_dir env w (input args).2
            = true)
    (Hrun : rel_val env args w = (Ok v, w')) :
  v = PyNone
  ∧ rel_val_sim_dirs env args (ensured env (output args) w) = (Ok tt, w').
Proof.
  unfold rel_val, bindM at 1 2, ask in Hrun. rewrite Hsim in Hrun.
  cbv iota in Hrun.
  rewrite (bindM_Ok _ _ _ _ _ (ensure_dir_run _ _ _)) in Hrun.
  unfold call in Hrun.
  apply bindM_Ok_inv in Hrun as ([] & w1 & Hdirs & [= <- <-]). done.
Qed.

Lemma rel_val_two_sim_dirs_witness :
  (rel_val env_example args_hits []).1 = Ok PyNone
  ∧ rel_val_sim_dirs env_example args_hits [EMakedirs "out"]
    = (Ok tt, (rel_val env_example args_hits []).2).
Proof.
  assert (Hrun : rel_val env_example args_hits []
                 = (Ok PyNone, (rel_val env_example args_hits []).2))
    by (vm_compute; reflexivity).
  split; [by rewrite Hrun|].
  exact (proj2 (rel_val_two_sim_dirs env_example args_hits [] _ PyNone
                  eq_refl Hrun)).
Defined.

(** ** ColumnarReducer: output files that cannot be opened *)

Lemma load_root_file_run (env : Env) (path opt : string) (w : World) :
  load_root_file env path opt w
  = if tfile_open env w path opt then (Ok (Some path), w)
    else (Ok None,
          w ++ [EPrint ("WARNING: ROOT file " +:+ path
                          +:+ " might not exist or could not be opened")]).
Proof.
  unfold load_root_file, bindM, ask. by destruct (tfile_open env w path opt).
Qed.

(** without a first output file, the first loop writes nothing: it stops
    with [AttributeError] at the first branch that the chain can fill *)
Lemma fill_first_loop_no_file (env : Env) (chain1 : chain)
    (bs : list string) (acc : list string * list hist) (w : World) :
  forM (fill_first env chain1 None) bs acc w
  = if bool_decide (filter (fills_first env chain1) bs = [])
    then (Ok acc, w) else (Raise AttributeError, w).
Proof.
  induction bs as [|b bs IH]; [done|].
  rewrite forM_cons, filter_cons. unfold bindM, fill_first at 1.
  destruct acc as [acc_b acc_h].
  destruct (decide (fills_first env chain1 b)) as [Hb|Hb].
  - rewrite bool_decide_eq_false_2 by exact Hb. done.
  - apply dec_stable in Hb. rewrite bool_decide_eq_true_2 by exact Hb.
    exact IH.
Qed.

(** X15.  When the first output file cannot be opened,
    [make_generic_histograms_from_chain] ends with [AttributeError]: the
    [None] that [load_root_file] returns is used as a file.  It has only
    printed warnings; no histogram is written to either file. *)
Theorem make_generic_histograms_first_file_missing (env : Env)
    (filenames1 filenames2 : filenames)
    (output_filepath1 output_filepath2 treename : string) (w : World)
    (Hfail : ∀ w, tfile_open env w output_filepath1 "RECREATE" = false) :
  ∃ prints,
    make_generic_histograms_from_chain env filenames1 filenames2
      output_filepath1 output_filepath2 treename w
    = (Raise AttributeError, w ++ prints)
    ∧ Forall is_print prints.
Proof.
  unfold make_generic_histograms_from_chain. cbv zeta.
  set (chain1 := TChain treename (iter filenames1)).
  set (chain2 := TChain treename (iter filenames2)).
  assert (Hbranches : ∃ bs,
    (if bool_decide (branch_names env chain1 ≠ branch_names env chain2)
     then print "WARNING: Found different branches in input files";;
          ret (set_and (branch_names env chain1) (branch_names env chain2))
     else ret (branch_names env chain1)) w
    = (Ok bs, w ++ schema_warning env chain1 chain2)).
  { unfold schema_warning. destruct (bool_decide _); eexists; [reflexivity|].
    unfold ret. by rewrite app_nil_r. }
  destruct Hbranches as (bs & Hbranches).
  rewrite (bindM_Ok _ _ _ _ _ Hbranches).
  unfold bindM at 1. rewrite load_root_file_run, Hfail.
  unfold bindM at 1. rewrite fill_first_loop_no_file.
  assert (Hwarn : Forall is_print (schema_warning env chain1 chain2)).
  { unfold schema_warning. destruct (bool_decide _); repeat constructor. }
  destruct (bool_decide (filter (fills_first env chain1) bs = []));
    cbv beta iota.
  - unfold bindM at 1. rewrite load_root_file_run.
    destruct (tfile_open env _ output_filepath2 "RECREATE");
      eexists; (split; [simpl; rewrite <- ?app_assoc; reflexivity|]);
      repeat (apply Forall_app; split); try done; repeat constructor.
  - eexists. split; [by rewrite <- app_assoc|].
    apply Forall_app. split; [done|]. repeat constructor.
Qed.

Lemma make_generic_histograms_first_file_missing_witness :
  ∃ prints,
    make_generic_histograms_from_chain env_no_output
      (PathList ["sim1/o2sim_HitsITS.root"])
      (PathList ["sim2/o2sim_HitsITS.root"])
      "out/file1.root" "out/file2.root" "o2sim" []
    = (Raise AttributeError, [] ++ prints)
    ∧ Forall is_print prints.
Proof.
  apply (make_generic_histograms_first_file_missing env_no_output).
  intros w. reflexivity.
Defined.

Lemma fill_second_loop_no_file (env : Env) (chain2 : chain)
    (l : list (string * hist)) (w : World) :
  forM (fill_second env chain2 None) l tt w
  = match l with
    | [] => (Ok tt, w)
    | _ :: _ => (Raise AttributeError, w)
    end.
Proof. destruct l as [|[b h] l]; reflexivity. Qed.

(** X16.  When the first output file can be opened and the second cannot,
    [make_generic_histograms_from_chain] ends with [AttributeError] after
    the first loop: the histograms of the first chain are written to the
    first file, and nothing is written to the second. *)
Theorem make_generic_histograms_second_file_missing (env : Env)
    (filenames1 filenames2 : filenames)
    (output_filepath1 output_filepath2 treename : string) (w : World)
    (Hopen : ∀ w, tfile_open env w output_filepath1 "RECREATE" = true)
    (Hfail : ∀ w, tfile_open env w output_filepath2 "RECREATE" = false) :
  let chain1 := TChain treename (iter filenames1) in
  let chain2 := TChain treename (iter filenames2) in
  let kept := filter (fills_first env chain1)
                     (looped_branches env chain1 chain2) in
  make_generic_histograms_from_chain env filenames1 filenames2
    output_filepath1 output_filepath2 treename w
  = (Raise AttributeError,
     w ++ schema_warning env chain1 chain2
       ++ (written_first chain1 output_filepath1 <$> kept)
       ++ [EPrint ("WARNING: ROOT file " +:+ output_filepath2
                     +:+ " might not exist or could not be opened")]).
Proof.
  intros chain1 chain2 kept.
  unfold make_generic_histograms_from_chain.
  fold chain1 chain2. cbv zeta.
  set (bs := looped_branches env chain1 chain2) in *.
  assert (Hbranches :
    (if bool_decide (branch_names env chain1 ≠ branch_names env chain2)
     then print "WARNING: Found different branches in input files";;
          ret (set_and (branch_names env chain1) (branch_names env chain2))
     else ret (branch_names env chain1)) w
    = (Ok bs, w ++ schema_warning env chain1 chain2)).
  { unfold bs, looped_branches, schema_warning.
    destruct (bool_decide _); [reflexivity|].
    unfold ret. by rewrite app_nil_r. }
  rewrite (bindM_Ok _ _ _ _ _ Hbranches).
  rewrite (bindM_Ok _ _ _ _ _ (load_root_file_opened _ _ _ _ (Hopen _))).
  rewrite (bindM_Ok _ _ _ _ _ (fill_first_loop _ _ _ _ _ _ _)).
  simpl app at 1 2. fold kept.
  unfold bindM at 1. rewrite load_root_file_run, Hfail.
  unfold bindM at 1. rewrite fill_second_loop_no_file.
  rewrite <- !app_assoc.
  destruct (zip kept _); [|done].
  reflexivity.
Qed.

Lemma make_generic_histograms_second_file_missing_witness :
  make_generic_histograms_from_chain env_second_missing
    (PathList ["sim1/o2sim_HitsITS.root"])
    (PathList ["sim2/o2sim_HitsITS.root"])
    "out/file1.root" "out/file2.root" "o2sim" []
  = (Raise AttributeError,
     (written_first (TChain "o2sim" ["sim1/o2sim_HitsITS.root"])
                    "out/file1.root" <$> ["px"; "pz"])
     ++ [EPrint "WARNING: ROOT file out/file2.root might not exist or could not be opened"]).
Proof.
  apply (make_generic_histograms_second_file_missing env_second_missing
           (PathList ["sim1/o2sim_HitsITS.root"])
           (PathList ["sim2/o2sim_HitsITS.root"])
           "out/file1.root" "out/file2.root" "o2sim" []);
    intros w; reflexivity.
Defined.

(** ** ComparisonRunner: the comparisons that are run *)











(** ** SeverityAggregator: what is printed and what is collected *)

Lemma print_names_run (names : list string) (w : World) :
  forM (fun _ n => print ("    " +:+ n)) names tt w
  = (Ok tt, w ++ ((fun n => EPrint ("    " +:+ n)) <$> names)).
Proof.
  revert w. induction names as [|n names IH]; intros w.
  - simpl. unfold ret. by rewrite app_nil_r.
  - rewrite forM_cons. unfold bindM, print, emit at 1. rewrite IH.
    by rewrite <- app_assoc.
Qed.

Lemma severity_loop_run (res : gmap string (list string))
    (severity : list string) (r : bool) (w : World) :
  forM (severity_step res) severity r w
  = (Ok (r || existsb (has_names res) severity),
     w ++ severity_lines res severity).
Proof.
  revert r w. induction severity as [|s severity IH]; intros r w.
  - simpl. unfold ret. by rewrite orb_false_r, app_nil_r.
  - rewrite forM_cons. unfold bindM at 1, severity_step at 1.
    unfold severity_lines. rewrite bind_cons. fold (severity_lines res severity).
    simpl existsb. unfold has_names at 1.
    destruct (res !! s) as [[|n names]|].
    + simpl. rewrite IH. done.
    + unfold bindM at 1, print at 1, emit at 1. unfold bindM at 1.
      rewrite print_names_run. unfold ret at 1. rewrite IH.
      rewrite orb_true_r. simpl. by rewrite <- !app_assoc.
    + simpl. rewrite IH. done.
Qed.

(** X20.  [has_severity] returns whether one of the requested severities
    has names in the summary, and prints, for every requested severity
    that has names and in the order of the request, a header line
    followed by one line per name; it prints nothing else. *)
Theorem has_severity_prints (env : Env) (filename : string)
    (severity : list string) (w : World) :
  let res := test_summary env w filename in
  has_severity env filename severity w
  = (Ok (existsb (has_names res) severity), w ++ severity_lines res severity).
Proof.
  cbv zeta. unfold has_severity, bindM, ask.
  by rewrite severity_loop_run.
Qed.

Lemma has_severity_run (env : Env) (filename : string)
    (severity : list string) (w : World) :
  has_severity env filename severity w
  = (Ok (existsb (has_names (test_summary env w filename)) severity),
     w ++ severity_lines (test_summary env w filename) severity).
Proof. unfold has_severity, bindM, ask. by rewrite severity_loop_run. Qed.

Lemma collect_flagged_run (env : Env) (paths acc : list string) (w : World) :
  (∀ w1 w2 p, test_summary env w1 p = test_summary env w2 p) →
  forM (fun acc p =>
          let* flagged := has_severity env p default_severity in
          ret (if flagged then acc ++ [p] else acc : list string))
       paths acc w
  = (Ok (acc ++ filter (fun p => verdict_flagged env w p = true) paths),
     w ++ (p ← paths;
           severity_lines (test_summary env w p) default_severity)).
Proof.
  intros Hstable. revert acc w.
  induction paths as [|p paths IH]; intros acc w.
  - simpl. unfold ret. by rewrite !app_nil_r.
  - rewrite forM_cons. unfold bindM at 1 2. rewrite has_severity_run.
    unfold ret at 1. rewrite IH, filter_cons, bind_cons.
    fold (verdict_flagged env w p).
    assert (Hsame : ∀ q, verdict_flagged env
                           (w ++ severity_lines (test_summary env w p)
                                   default_severity) q
                         = verdict_flagged env w q).
    { intros q. unfold verdict_flagged. by rewrite (Hstable _ w). }
    rewrite (list_filter_iff _ (fun q => verdict_flagged env w q = true))
      by (intros q; by rewrite Hsame).
    assert (Hlines : ∀ l : list string,
      (q ← l; severity_lines
                (test_summary env
                   (w ++ severity_lines (test_summary env w p)
                           default_severity) q) default_severity)
      = (q ← l; severity_lines (test_summary env w q) default_severity)).
    { intros l. induction l as [|q l IHl]; [done|].
      by rewrite !bind_cons, IHl, (Hstable _ w). }
    rewrite Hlines.
    destruct (verdict_flagged env w p).
    + rewrite decide_True by done. by rewrite <- !app_assoc.
    + rewrite decide_False by done. by rewrite <- !app_assoc.
Qed.

(** X19.  When the verdict files do not change while they are read,
    [add_to_summary] sets the key to the list of the given paths whose
    verdict has names for [BAD] or [CRIT_NC], in the order given (to the
    empty list when there is none), and has only printed the names of
    the flagged histograms. *)
Theorem add_to_summary_collects (env : Env) (paths_to_summary : list string)
    (key : string) (summary_dict : list (string * list string)) (w : World)
    (Hstable : ∀ w1 w2 p, test_summary env w1 p = test_summary env w2 p) :
  add_to_summary env paths_to_summary key summary_dict w
  = (Ok (dict_set key
           (filter (fun p => verdict_flagged env w p = true) paths_to_summary)
           summary_dict),
     w ++ (p ← paths_to_summary;
           severity_lines (test_summary env w p) default_severity)).
Proof.
  unfold add_to_summary.
  by rewrite (bindM_Ok _ _ _ _ _ (collect_flagged_run _ _ _ _ Hstable)).
Qed.

Lemma add_to_summary_collects_witness :
  add_to_summary env_example ["out/hits/HitsITS_dir/Summary.json"] "hist"
    [] []
  = (Ok [("hist", ["out/hits/HitsITS_dir/Summary.json"])],
     [EPrint "Histograms for severity BAD:"; EPrint "    h1"]).
Proof.
  apply (add_to_summary_collects env_example
           ["out/hits/HitsITS_dir/Summary.json"] "hist" [] []).
  intros w1 w2 p. reflexivity.
Defined.

(** ** Orchestrator: the option [--threshold] *)

(** X22.  The value of [--threshold] has no effect on [rel_val]: the size
    audit of [rel_val_sim_dirs] is always run with the threshold 0.5, and
    nothing else reads the option. *)
Theorem rel_val_ignores_threshold (env : Env) (args : Args) (t : Q)
    (w : World) :
  rel_val env (set_threshold t args) w = rel_val env args w.
Proof.
  destruct args as [? ? ? ? ? ? ? ? [] ? [] [] [] [] ?]; reflexivity.
Qed.

(** ** ColumnarReducer: which leaves become histograms *)

Lemma elem_of_branch_names (env : Env) (c : chain) (b : string) :
  b ∈ branch_names env c ↔ numeric_leaf env c b.
Proof.
  unfold branch_names, numeric_leaf.
  rewrite merge_sort_Permutation, list_elem_of_fmap. split.
  - intros ([b' ty] & -> & [Hty Hin]%list_elem_of_filter). by exists ty.
  - intros (ty & Hin & Hty). exists (b, ty). split; [done|].
    by apply list_elem_of_filter.
Qed.

Lemma looped_branches_numeric (env : Env) (chain1 chain2 : chain)
    (b : string) :
  b ∈ looped_branches env chain1 chain2 →
  numeric_leaf env chain1 b ∧ numeric_leaf env chain2 b.
Proof.
  unfold looped_branches. case_bool_decide as Hne.
  - intros [H1 H2]%elem_of_set_and. by rewrite <- !elem_of_branch_names.
  - intros Hb. rewrite <- !elem_of_branch_names. by rewrite <- Hne.
Qed.

(** X21.  When the output files can be opened, every histogram that
    [make_generic_histograms_from_chain] writes is named after a leaf
    (with [.] replaced by [_]) that both chains have with an accepted
    numeric type: a leaf of another type, or a leaf of one chain only, is
    never written. *)
Theorem make_generic_histograms_numeric_only (env : Env)
    (filenames1 filenames2 : filenames)
    (output_filepath1 output_filepath2 treename : string) (w : World)
    (Hopen : ∀ w path, tfile_open env w path "RECREATE" = true) :
  let chain1 := TChain treename (iter filenames1) in
  let chain2 := TChain treename (iter filenames2) in
  ∃ new,
    make_generic_histograms_from_chain env filenames1 filenames2
      output_filepath1 output_filepath2 treename w = (Ok tt, w ++ new)
    ∧ ∀ file h, EHistWrite file h ∈ new →
        ∃ b, GetName h = h_name_of b
             ∧ numeric_leaf env chain1 b ∧ numeric_leaf env chain2 b.
Proof.
  intros chain1 chain2. eexists. split.
  { by apply make_generic_histograms_from_chain_run. }
  fold chain1 chain2. intros file h Hin.
  assert (Hkept : ∀ b,
            b ∈ filter (fills_first env chain1)
                       (looped_branches env chain1 chain2) →
            numeric_leaf env chain1 b ∧ numeric_leaf env chain2 b).
  { intros b [_ Hb]%list_elem_of_filter. by apply looped_branches_numeric. }
  apply elem_of_app in Hin as [Hin|Hin].
  { unfold schema_warning in Hin. destruct (bool_decide _).
    - by apply list_elem_of_singleton in Hin.
    - by apply elem_of_nil in Hin. }
  apply elem_of_app in Hin as [Hin|Hin];
    apply list_elem_of_fmap in Hin as (b & [= -> ->] & Hb);
    exists b; (split; [done|]); by apply Hkept.
Qed.

Lemma make_generic_histograms_numeric_only_witness :
  ∃ new,
    make_generic_histograms_from_chain env_example
      (PathList ["sim1/o2sim_HitsITS.root"])
      (PathList ["sim2/o2sim_HitsITS.root"])
      "out/file1.root" "out/file2.root" "o2sim" [] = (Ok tt, [] ++ new)
    ∧ ∀ file h, EHistWrite file h ∈ new →
        ∃ b, GetName h = h_name_of b
             ∧ numeric_leaf env_example
                 (TChain "o2sim" ["sim1/o2sim_HitsITS.root"]) b
             ∧ numeric_leaf env_example
                 (TChain "o2sim" ["sim2/o2sim_HitsITS.root"]) b.
Proof.
  apply (make_generic_histograms_numeric_only env_example
           (PathList ["sim1/o2sim_HitsITS.root"])
           (PathList ["sim2/o2sim_HitsITS.root"])
           "out/file1.root" "out/file2.root" "o2sim" []).
  intros w path. reflexivity.
Defined.
